(** * lightning-ir / tide: scoring glue, ranking datasets, batch collation

    A shallow embedding of the Python sources

    - [tide/data.py]                      ([Sample], [Batch], [ScoredDocPair],
                                           [KDDocPairs.docpairs_iter]),
    - [tide/datamodule.py]                ([RunDataset], [TriplesDataset],
                                           [MVRDataModule.collate_fn]),
    - [lightning_ir/lightning_utils/validation_utils.py]
                                          ([create_run_from_scores]),
    - [lightning_ir/models/mvr/model.py]  ([MVRModel]),

    followed by the properties established about them.

    Conventions.  Python numbers are exact: integers are [Z] and finite
    real values are rationals [Q].  A Python [float], an entry of a float
    tensor and a target are a [pyfloat]: a finite value, an infinity or
    not-a-number.  In a column of a table ([pandas.DataFrame]) a missing
    value, which pandas writes as not-a-number, is [None].  A Python [str]
    is the string of its UTF-8 bytes.  A raised exception is the [Raise]
    case of [result].  Tables are lists of row records in row order.
    Dictionaries and key/value stores are [gmap]s. *)

From Stdlib Require Import Ascii QArith Qminmax Lqa.
From stdpp Require Import base option list gmap strings sorting.

Local Open Scope Z_scope.

(** ** Python exceptions and fallible computations *)

Inductive exn : Type :=
  | IndexError
  | KeyError
  | ValueError
  | TypeError
  | RuntimeError.

Inductive result (A : Type) : Type :=
  | Ok (a : A)
  | Raise (e : exn).
Arguments Ok {A} a.
Arguments Raise {A} e.

#[global] Instance result_ret : MRet result := @Ok.
#[global] Instance result_bind : MBind result := λ A B f m,
  match m with
  | Ok a => f a
  | Raise e => Raise e
  end.
#[global] Instance result_fmap : FMap result := λ A B f m,
  match m with
  | Ok a => Ok (f a)
  | Raise e => Raise e
  end.

(** [xs[i]] on a Python list: negative indices count from the end. *)
Definition py_index {A} (xs : list A) (i : Z) : result A :=
  let n := Z.of_nat (length xs) in
  if decide (0 ≤ i < n) then
    match xs !! Z.to_nat i with Some x => Ok x | None => Raise IndexError end
  else if decide (- n ≤ i < 0) then
    match xs !! Z.to_nat (n + i) with Some x => Ok x | None => Raise IndexError end
  else Raise IndexError.

(** [d[k]] / [store.get(k)] on a key/value store: a missing key is fatal. *)
Definition py_getitem {V} (d : gmap string V) (k : string) : result V :=
  match d !! k with
  | Some v => Ok v
  | None => Raise KeyError
  end.

(** [[f(x) for x in xs]] where [f] may raise: the first exception wins. *)
Fixpoint mapM_result {A B} (f : A → result B) (xs : list A) : result (list B) :=
  match xs with
  | [] => Ok []
  | x :: xs' => y ← f x; ys ← mapM_result f xs'; mret (y :: ys)
  end.

(** ** Python floats *)

(** A [float]: finite, infinite or not-a-number.  The two zeros are not told
    apart, as no comparison tells them apart. *)
Inductive pyfloat : Type :=
  | Finite (q : Q)
  | PosInf
  | NegInf
  | NaN.

Definition is_nan (x : pyfloat) : bool :=
  match x with
  | NaN => true
  | _ => false
  end.

(** [x < y], [x == y] and [x > y] on floats: not-a-number compares with
    nothing, itself included. *)
Definition float_compare (x y : pyfloat) : option comparison :=
  match x, y with
  | NaN, _ => None
  | _, NaN => None
  | Finite p, Finite q => Some (p ?= q)%Q
  | NegInf, NegInf => Some Eq
  | PosInf, PosInf => Some Eq
  | NegInf, _ => Some Lt
  | _, PosInf => Some Lt
  | _, NegInf => Some Gt
  | PosInf, _ => Some Gt
  end.

(** ** Python strings

    [str.split()] and [str.rstrip()] without arguments work on the white
    space of [str.isspace]: the characters below, given by their code point
    and listed by their UTF-8 bytes. *)
Definition white_space : list (list ascii) :=
  (λ bytes : list N, ascii_of_N <$> bytes) <$>
    [[0x09]; [0x0A]; [0x0B]; [0x0C]; [0x0D];          (* U+0009 .. U+000D *)
     [0x1C]; [0x1D]; [0x1E]; [0x1F]; [0x20];          (* U+001C .. U+0020 *)
     [0xC2; 0x85]; [0xC2; 0xA0];                      (* U+0085, U+00A0 *)
     [0xE1; 0x9A; 0x80];                              (* U+1680 *)
     [0xE2; 0x80; 0x80]; [0xE2; 0x80; 0x81];          (* U+2000 .. U+200A *)
     [0xE2; 0x80; 0x82]; [0xE2; 0x80; 0x83];
     [0xE2; 0x80; 0x84]; [0xE2; 0x80; 0x85];
     [0xE2; 0x80; 0x86]; [0xE2; 0x80; 0x87];
     [0xE2; 0x80; 0x88]; [0xE2; 0x80; 0x89];
     [0xE2; 0x80; 0x8A];
     [0xE2; 0x80; 0xA8]; [0xE2; 0x80; 0xA9];          (* U+2028, U+2029 *)
     [0xE2; 0x80; 0xAF];                              (* U+202F *)
     [0xE2; 0x81; 0x9F];                              (* U+205F *)
     [0xE3; 0x80; 0x80]]%N.                           (* U+3000 *)

Definition isspace (c : list ascii) : bool := bool_decide (c ∈ white_space).

(** The number of bytes of the white-space character that [s] starts with,
    [0] when it starts with none. *)
Definition space_len (s : list ascii) : nat :=
  default 0%nat (length <$> head (filter (λ w, w `prefix_of` s) white_space)).

(** The characters of a string: a white-space character with all its bytes,
    any other byte on its own.  [skip] counts the bytes of a white-space
    character that are still to be passed over. *)
Fixpoint str_chars (skip : nat) (s : list ascii) : list (list ascii) :=
  match s with
  | [] => []
  | a :: s' =>
      match skip with
      | S k => str_chars k s'
      | O =>
          match space_len s with
          | O => [a] :: str_chars 0 s'
          | S k => take (S k) s :: str_chars k s'
          end
      end
  end.

(** [chars.rstrip()] *)
Fixpoint rstrip_chars (cs : list (list ascii)) : list (list ascii) :=
  match cs with
  | [] => []
  | c :: cs' =>
      match rstrip_chars cs' with
      | [] => if isspace c then [] else [c]
      | rest => c :: rest
      end
  end.

(** [chars.split()]: the maximal runs of characters that are not white
    space; [word] is the run read so far. *)
Fixpoint split_chars (word : list ascii) (cs : list (list ascii))
    : list (list ascii) :=
  match cs with
  | [] => if decide (word = []) then [] else [word]
  | c :: cs' =>
      if isspace c
      then if decide (word = []) then split_chars [] cs'
           else word :: split_chars [] cs'
      else split_chars (word ++ c) cs'
  end.

Definition py_rstrip (s : string) : string :=
  String.string_of_list_ascii
    (mjoin (rstrip_chars (str_chars 0 (String.list_ascii_of_string s)))).

Definition py_split (s : string) : list string :=
  String.string_of_list_ascii
    <$> split_chars [] (str_chars 0 (String.list_ascii_of_string s)).

(** ** [tide/data.py] *)

Module Sample.
Record t : Type := mk {
  query_id : string;
  query : string;
  doc_ids : list string;
  docs : list string;
  targets : list pyfloat;
  relevance : option (list Q)
}.
End Sample.

(** The output of the tokenizer: two integer matrices of equal shape. *)
Record BatchEncoding : Type := mkBatchEncoding {
  input_ids : list (list Z);
  attention_mask : list (list Z)
}.

Module Batch.
Record t : Type := mk {
  query_ids : list string;
  query_encoding : BatchEncoding;
  doc_ids : list (list string);
  doc_encoding : BatchEncoding;
  targets : list pyfloat;               (* 1-D tensor *)
  relevance : option (list (list Q))    (* 2-D tensor, or [None] *)
}.
End Batch.

Record ScoredDocPair : Type := mkScoredDocPair {
  sdp_query_id : string;
  sdp_doc_id_a : string;
  sdp_doc_id_b : string;
  sdp_score_a : pyfloat;
  sdp_score_b : pyfloat
}.

(** A Python generator that is consumed once: it yields finitely many items
    and then either finishes or raises. *)
Inductive gen (A : Type) : Type :=
  | Done
  | Yield (a : A) (rest : gen A)
  | Throw (e : exn).
Arguments Done {A}.
Arguments Yield {A} a rest.
Arguments Throw {A} e.

Fixpoint yielded {A} (g : gen A) : list A :=
  match g with
  | Yield a rest => a :: yielded rest
  | _ => []
  end.

Fixpoint outcome {A} (g : gen A) : option exn :=
  match g with
  | Done => None
  | Yield _ rest => outcome rest
  | Throw e => Some e
  end.

Module KDDocPairs.
(** One line of the supervision stream, [pos_score neg_score qid pid1 pid2].
    The columns are [line.rstrip().split()]; unpacking them into five names
    raises [ValueError] for any other number of columns.  [float] is
    Python's builtin [float()] on a column, [None] where it raises
    [ValueError]. *)
Definition parse_line (float : string → option pyfloat) (line : string)
    : result ScoredDocPair :=
  match py_split (py_rstrip line) with
  | [pos_score; neg_score; qid; pid1; pid2] =>
      match float pos_score, float neg_score with
      | Some pos, Some neg => Ok (mkScoredDocPair qid pid1 pid2 pos neg)
      | _, _ => Raise ValueError
      end
  | _ => Raise ValueError
  end.

(** [lines] are the lines that the UTF-8 reader of the stream hands out. *)
Fixpoint docpairs_iter (float : string → option pyfloat) (lines : list string)
    : gen ScoredDocPair :=
  match lines with
  | [] => Done
  | line :: lines' =>
      match parse_line float line with
      | Ok p => Yield p (docpairs_iter float lines')
      | Raise e => Throw e
      end
  end.
End KDDocPairs.

(** ** [tide/datamodule.py] *)

(** A record of a doc-pair stream as [TriplesDataset] sees it: the three ids
    are always there, the two scores are attributes that the record type may
    or may not have ([hasattr]). *)
Record DocPair : Type := mkDocPair {
  dp_query_id : string;
  dp_doc_id_a : string;
  dp_doc_id_b : string;
  dp_score_a : option pyfloat;
  dp_score_b : option pyfloat
}.

Definition of_ScoredDocPair (p : ScoredDocPair) : DocPair :=
  mkDocPair (sdp_query_id p) (sdp_doc_id_a p) (sdp_doc_id_b p)
            (Some (sdp_score_a p)) (Some (sdp_score_b p)).

(** What [ir_datasets.load] hands to [IRDataset]: the query table, the
    document store (doc id to default text), the relevance judgments and the
    doc-pair stream. *)
Record Qrel : Type := mkQrel {
  qrel_query_id : string;
  qrel_doc_id : string;
  qrel_relevance : Z
}.

Record IRDataset : Type := mkIRDataset {
  ir_queries : gmap string string;
  ir_docs : gmap string string;
  ir_qrels : list Qrel;
  ir_docpairs : gen DocPair
}.

Inductive targets_field : Type := relevance_field | rank_field.
Inductive strategy : Type := single_relevant | top.

#[global] Instance strategy_eq_dec : EqDecision strategy.
Proof. solve_decision. Defined.

Module RunDatasetConfig.
Record t : Type := mk {
  targets : targets_field;
  depth : Z;
  sample_size : Z;
  sampling_strategy : strategy
}.
End RunDatasetConfig.

(** A line of the run file as [pd.read_csv] keeps it (columns 0, 2, 3, 4). *)
Record RunRow : Type := mkRunRow {
  run_query_id : string;
  run_doc_id : string;
  run_rank : Z;
  run_score : Q
}.

(** A row of [self.run] after the outer join: a judged document that is not
    in the run has no rank and no score, a ranked document without judgment
    has no relevance. *)
Module Row.
Record t : Type := mk {
  query_id : string;
  doc_id : string;
  rank : option Z;
  score : option Q;
  relevance : option Z
}.
End Row.

(** *** Sorting tables

    [sort_values] on several columns and the key sort of an outer [merge]
    are stable; insertion from the right keeps equal keys in input order. *)
Fixpoint insert_sorted {A} (leb : A → A → bool) (x : A) (l : list A) : list A :=
  match l with
  | [] => [x]
  | y :: l' => if leb x y then x :: l else y :: insert_sorted leb x l'
  end.

Definition stable_sort {A} (leb : A → A → bool) (l : list A) : list A :=
  foldr (insert_sorted leb) [] l.

(** Ascending order on a numeric column, not-a-number last. *)
Definition nan_last_leb (a b : option Z) : bool :=
  match a, b with
  | Some x, Some y => x <=? y
  | Some _, None => true
  | None, Some _ => false
  | None, None => true
  end.

Definition fillna {A} (v : A) (x : option A) : A := default v x.

(** *** Random sampling

    [DataFrame.sample] draws from the global random state.  The state is
    modelled as a stream of natural numbers; every draw consumes one.  Each
    selection of [n] distinct rows in each order is the outcome of some
    stream. *)
Definition rng : Type := nat → nat.

Definition rand (A : Type) : Type := rng → result (A * rng).

#[global] Instance rand_ret : MRet rand := λ A a g, Ok (a, g).
#[global] Instance rand_bind : MBind rand := λ A B f m g,
  match m g with
  | Ok (a, g') => f a g'
  | Raise e => Raise e
  end.

Definition lift {A} (m : result A) : rand A := λ g,
  match m with
  | Ok a => Ok (a, g)
  | Raise e => Raise e
  end.

Fixpoint draw {A} (k : nat) (l : list A) (g : rng) : list A * rng :=
  match k with
  | O => ([], g)
  | S k' =>
      let i := (g 0%nat `mod` length l)%nat in
      match l !! i with
      | None => ([], g)
      | Some x =>
          let '(xs, g') := draw k' (delete i l) (λ n, g (S n)) in
          (x :: xs, g')
      end
  end.

(** [frame.sample(n)]: [n] rows without replacement; a negative [n] or an
    [n] beyond the number of rows is a [ValueError]. *)
Definition sample {A} (n : Z) (l : list A) : rand (list A) := λ g,
  if decide (n < 0) then Raise ValueError
  else if decide (Z.of_nat (length l) < n) then Raise ValueError
  else Ok (draw (Z.to_nat n) l g).

(** [frame.head(n)]: the first [n] rows, all but the last [-n] for [n < 0]. *)
Definition frame_head {A} (n : Z) (l : list A) : list A :=
  if decide (0 ≤ n) then take (Z.to_nat n) l
  else take (length l - Z.to_nat (- n)) l.

(** *** [RunDataset] *)

Definition same_key (r : RunRow) (q : Qrel) : Prop :=
  run_query_id r = qrel_query_id q ∧ run_doc_id r = qrel_doc_id q.

#[global] Instance same_key_dec r q : Decision (same_key r q).
Proof. unfold same_key. apply _. Defined.

(** [self.run[self.run["rank"] <= config.depth]], skipped for depth [-1]. *)
Definition filter_depth (depth : Z) (run : list RunRow) : list RunRow :=
  if decide (depth ≠ -1) then filter (λ r, run_rank r ≤ depth) run else run.

(** [self.qrels.loc[pd.IndexSlice[run["query_id"].drop_duplicates(), :]]]:
    the judgments of the queries of the run. *)
Definition restrict_qrels (run : list RunRow) (qrels : list Qrel) : list Qrel :=
  filter (λ q, qrel_query_id q ∈ run_query_id <$> run) qrels.

Definition key_leb (r1 r2 : Row.t) : bool :=
  match String.compare (Row.query_id r1) (Row.query_id r2) with
  | Lt => true
  | Eq => String.leb (Row.doc_id r1) (Row.doc_id r2)
  | Gt => false
  end.

(** [run.merge(qrels, on=["query_id", "doc_id"], how="outer")]: every run row
    once per matching judgment (once without relevance when there is none),
    then the judgments that match no run row; the outer join orders its
    result by the join keys. *)
Definition merge_outer (run : list RunRow) (qrels : list Qrel) : list Row.t :=
  let left :=
    r ← run;
    let ms := filter (same_key r) qrels in
    match ms with
    | [] => [Row.mk (run_query_id r) (run_doc_id r)
                    (Some (run_rank r)) (Some (run_score r)) None]
    | _ => (λ q, Row.mk (run_query_id r) (run_doc_id r)
                        (Some (run_rank r)) (Some (run_score r))
                        (Some (qrel_relevance q))) <$> ms
    end in
  let right_only :=
    q ← qrels;
    if decide (Exists (λ r, same_key r q) run) then []
    else [Row.mk (qrel_query_id q) (qrel_doc_id q) None None
                 (Some (qrel_relevance q))] in
  stable_sort key_leb (left ++ right_only).

(** [sort_values(["query_id", "rank"])]. *)
Definition row_leb (r1 r2 : Row.t) : bool :=
  match String.compare (Row.query_id r1) (Row.query_id r2) with
  | Lt => true
  | Eq => nan_last_leb (Row.rank r1) (Row.rank r2)
  | Gt => false
  end.

Definition max_rank (rows : list Row.t) : option Z :=
  foldr (λ r acc,
           match Row.rank r, acc with
           | Some x, Some y => Some (Z.max x y)
           | Some x, None => Some x
           | None, _ => acc
           end) None rows.

Module RunDataset.
Record t : Type := mk {
  queries : gmap string string;
  docs : gmap string string;
  run : list Row.t;
  config : RunDatasetConfig.t;
  depth : Z;
  query_ids : list string;
  warnings : list string
}.
End RunDataset.

Definition depth_warning : string :=
  "Depth is greater than the maximum rank in the run file.".
Definition sample_size_warning : string :=
  "Sample size is greater than depth and top sampling strategy is used.".

Definition RunDataset_init (dataset : IRDataset) (run_file : list RunRow)
    (config : RunDatasetConfig.t) : RunDataset.t :=
  let depth := RunDatasetConfig.depth config in
  let run := filter_depth depth run_file in
  let qrels := restrict_qrels run (ir_qrels dataset) in
  let run := merge_outer run qrels in
  let run := stable_sort row_leb run in
  let query_ids :=
    stable_sort String.leb (remove_dups (Row.query_id <$> run)) in
  let w1 :=
    match max_rank run with
    | Some m => if decide (m < depth) then [depth_warning] else []
    | None => []
    end in
  let w2 :=
    if decide (RunDatasetConfig.sampling_strategy config = top
               ∧ depth < RunDatasetConfig.sample_size config)
    then [sample_size_warning] else [] in
  RunDataset.mk (ir_queries dataset) (ir_docs dataset) run config depth
                query_ids (w1 ++ w2).

Definition RunDataset_len (self : RunDataset.t) : nat :=
  length (RunDataset.query_ids self).

(** [self.groups.get_group(query_id)]. *)
Definition get_group (self : RunDataset.t) (query_id : string)
    : result (list Row.t) :=
  match filter (λ r, Row.query_id r = query_id) (RunDataset.run self) with
  | [] => Raise KeyError
  | group => Ok group
  end.

Definition relevant (r : Row.t) : Prop :=
  match Row.relevance r with
  | Some x => 0 < x
  | None => False
  end.

#[global] Instance relevant_dec r : Decision (relevant r).
Proof. unfold relevant. destruct (Row.relevance r); apply _. Defined.

(** [group["relevance"].fillna(0).eq(0) & ~group["rank"].isna()]. *)
Definition non_relevant_bool (r : Row.t) : Prop :=
  fillna 0 (Row.relevance r) = 0 ∧ is_Some (Row.rank r).

#[global] Instance non_relevant_bool_dec r : Decision (non_relevant_bool r).
Proof. unfold non_relevant_bool. apply _. Defined.

Definition target_of (field : targets_field) (r : Row.t) : option Z :=
  match field with
  | relevance_field => Row.relevance r
  | rank_field => Row.rank r
  end.

(** [group.set_index("doc_id").loc[list(doc_ids), field].fillna(0)]: for each
    requested label in turn, the rows that carry it. *)
Definition loc_targets (field : targets_field) (group : list Row.t)
    (doc_ids : list string) : list pyfloat :=
  d ← doc_ids;
  (λ r, Finite (inject_Z (fillna 0 (target_of field r))))
    <$> filter (λ r, Row.doc_id r = d) group.

Definition RunDataset_getitem (self : RunDataset.t) (idx : Z) : rand Sample.t :=
  let config := RunDataset.config self in
  query_id ← lift (py_index (RunDataset.query_ids self) idx);
  group ← lift (get_group self query_id);
  query ← lift (py_getitem (RunDataset.queries self) query_id);
  '(group, relevance) ←
    match RunDatasetConfig.sampling_strategy config with
    | single_relevant =>
        relevant ← sample 1 (filter relevant group);
        let num_non_relevant :=
          Z.of_nat (length (filter non_relevant_bool group)) in
        let sample_non_relevant :=
          Z.min (RunDatasetConfig.sample_size config - 1) num_non_relevant in
        non_relevant ← sample sample_non_relevant
                              (filter non_relevant_bool group);
        mret (relevant ++ non_relevant, None)
    | top =>
        let relevance :=
          (λ r, inject_Z (fillna 0 (Row.relevance r))) <$> group in
        mret (frame_head (RunDatasetConfig.sample_size config) group,
              Some relevance)
    end;
  let doc_ids := Row.doc_id <$> group in
  docs ← lift (mapM_result (py_getitem (RunDataset.docs self)) doc_ids);
  let targets := loc_targets (RunDatasetConfig.targets config) group doc_ids in
  mret (Sample.mk query_id query doc_ids docs targets relevance).

(** *** [TriplesDataset] *)

Module TriplesDataset.
Record t : Type := mk {
  queries : gmap string string;
  docs : gmap string string;
  docpairs : gen DocPair
}.
End TriplesDataset.

Definition TriplesDataset_init (dataset : IRDataset) : TriplesDataset.t :=
  TriplesDataset.mk (ir_queries dataset) (ir_docs dataset) (ir_docpairs dataset).

(** The body of the loop of [TriplesDataset.__iter__]. *)
Definition triple_sample (self : TriplesDataset.t) (doc : DocPair)
    : result Sample.t :=
  let query_id := dp_query_id doc in
  let doc_id_a := dp_doc_id_a doc in
  let doc_id_b := dp_doc_id_b doc in
  let score_a := match dp_score_a doc with Some s => s | None => Finite 1 end in
  let score_b := match dp_score_b doc with Some s => s | None => Finite 0 end in
  doc_a ← py_getitem (TriplesDataset.docs self) doc_id_a;
  doc_b ← py_getitem (TriplesDataset.docs self) doc_id_b;
  query ← py_getitem (TriplesDataset.queries self) query_id;
  mret (Sample.mk query_id query [doc_id_a; doc_id_b] [doc_a; doc_b]
                  [score_a; score_b] None).

Fixpoint iter_docpairs (self : TriplesDataset.t) (pairs : gen DocPair)
    : gen Sample.t :=
  match pairs with
  | Done => Done
  | Throw e => Throw e
  | Yield doc rest =>
      match triple_sample self doc with
      | Ok s => Yield s (iter_docpairs self rest)
      | Raise e => Throw e
      end
  end.

Definition TriplesDataset_iter (self : TriplesDataset.t) : gen Sample.t :=
  iter_docpairs self (TriplesDataset.docpairs self).

(** *** [MVRDataModule.collate_fn] *)

(** The tokenizer is an external collaborator: it maps a list of texts and a
    maximum length to an encoding. *)
Record MVRTokenizer : Type := mkMVRTokenizer {
  encode_queries : list string → Z → BatchEncoding;
  encode_docs : list string → Z → BatchEncoding
}.

Module MVRDataModule.
Record t : Type := mk {
  tokenizer : MVRTokenizer;
  max_length : Z;
  num_workers : Z;
  batch_size : Z
}.
End MVRDataModule.

(** [torch.nn.utils.rnn.pad_sequence(seqs, batch_first=True)]: every row is
    filled with zeros up to the length of the longest one. *)
Definition max_len {A} (seqs : list (list A)) : nat :=
  foldr (λ s m, Nat.max (length s) m) 0%nat seqs.

Definition pad_to (n : nat) (s : list Q) : list Q :=
  s ++ replicate (n - length s) 0%Q.

Definition pad_sequence (seqs : list (list Q)) : list (list Q) :=
  pad_to (max_len seqs) <$> seqs.

(** The six accumulators of the loop of [collate_fn]. *)
Record collate_acc : Type := mkAcc {
  acc_query_ids : list string;
  acc_queries : list string;
  acc_doc_ids : list (list string);
  acc_docs : list string;
  acc_targets : list pyfloat;
  acc_relevances : list (list Q)
}.

Definition collate_step (acc : collate_acc) (sample : Sample.t) : collate_acc :=
  mkAcc (acc_query_ids acc ++ [Sample.query_id sample])
        (acc_queries acc ++ [Sample.query sample])
        (acc_doc_ids acc ++ [Sample.doc_ids sample])
        (acc_docs acc ++ Sample.docs sample)
        (acc_targets acc ++ Sample.targets sample)
        (match Sample.relevance sample with
         | Some rel => acc_relevances acc ++ [rel]
         | None => acc_relevances acc
         end).

Definition collate_fn (self : MVRDataModule.t) (samples : list Sample.t)
    : Batch.t :=
  let acc := foldl collate_step (mkAcc [] [] [] [] [] []) samples in
  let query_encoding :=
    encode_queries (MVRDataModule.tokenizer self) (acc_queries acc)
                   (MVRDataModule.max_length self) in
  let doc_encoding :=
    encode_docs (MVRDataModule.tokenizer self) (acc_docs acc)
                (MVRDataModule.max_length self) in
  let targets := acc_targets acc in
  let relevance :=
    match acc_relevances acc with
    | [] => None
    | relevances => Some (pad_sequence relevances)
    end in
  Batch.mk (acc_query_ids acc) query_encoding (acc_doc_ids acc) doc_encoding
           targets relevance.


(** ** [lightning_ir/lightning_utils/validation_utils.py] *)

(** [np.array(a).repeat(repeats)]: one count per element, or a single count
    for all of them. *)
Definition np_repeat {A} (a : list A) (repeats : list nat) : result (list A) :=
  if decide (length repeats = length a)
  then Ok (mjoin (zip_with (λ x n, replicate n x) a repeats))
  else match repeats with
       | [n] => Ok (x ← a; replicate n x)
       | _ => Raise ValueError
       end.

(** A row of the run table; [index] is the row label the frame gives it at
    construction, its position in the flattened batch.  The [rank] column
    is missing ([None], not-a-number in the table) where the score is
    not-a-number. *)
Module Run.
Record t : Type := mk {
  index : nat;
  query_id : string;
  q0 : Z;
  doc_id : string;
  score : pyfloat;
  system : string;
  rank : option Z
}.
End Run.

(** The frame before the rank column is added. *)
Record ScoredRow : Type := mkScoredRow {
  sr_index : nat;
  sr_query_id : string;
  sr_doc_id : string;
  sr_score : pyfloat
}.

(** [pd.DataFrame({...})] on three arrays: they must have one length. *)
Definition make_frame (qcol dcol : list string) (scol : list pyfloat)
    : result (list ScoredRow) :=
  if decide (length qcol = length dcol ∧ length dcol = length scol)
  then Ok (imap (λ i '(q, d, s), mkScoredRow i q d s) (zip (zip qcol dcol) scol))
  else Raise ValueError.

(** Row [r'] is ranked ahead of row [r] by
    [rank(ascending=False, method="first")]: a higher score, or the same
    score earlier in the frame.  A row whose score is not-a-number is ahead
    of no row and has no row ahead of it. *)
Definition ahead (r' r : ScoredRow) : Prop :=
  match float_compare (sr_score r') (sr_score r) with
  | Some Gt => True
  | Some Eq => (sr_index r' < sr_index r)%nat
  | Some Lt | None => False
  end.

#[global] Instance ahead_dec r' r : Decision (ahead r' r).
Proof.
  unfold ahead.
  destruct (float_compare (sr_score r') (sr_score r)) as [[]|]; apply _.
Defined.

(** [df.groupby("query_id")["score"].rank(ascending=False, method="first")]
    at row [r], with the default [na_option="keep"]: a score that is
    not-a-number gets no rank; any other score gets one more than the
    number of rows of its group ahead of it. *)
Definition group_rank (frame : list ScoredRow) (r : ScoredRow) : option Z :=
  if is_nan (sr_score r) then None
  else
    Some (1 + Z.of_nat
                (length (filter (λ r', sr_query_id r' = sr_query_id r
                                       ∧ ahead r' r)
                                frame))).

(** [{query_id: i for i, query_id in enumerate(query_ids)}]: a later
    occurrence of a query id overwrites an earlier one. *)
Definition key_dict (query_ids : list string) : gmap string nat :=
  foldl (λ d iq, <[iq.2 := iq.1]> d) ∅ (imap pair query_ids).

(** The sort key of the [query_id] column, [series.replace(key_dict)].  The
    same replacement leaves the [rank] column as it is, no rank being a
    query id.  Every query id of the frame is a key of the dictionary.
    [sort_values] puts missing ranks last ([na_position="last"]). *)
Definition nat_opt_compare (a b : option nat) : comparison :=
  match a, b with
  | Some x, Some y => Nat.compare x y
  | None, Some _ => Lt
  | Some _, None => Gt
  | None, None => Eq
  end.

Definition run_leb (d : gmap string nat) (r1 r2 : Run.t) : bool :=
  match nat_opt_compare (d !! Run.query_id r1) (d !! Run.query_id r2) with
  | Lt => true
  | Eq => nan_last_leb (Run.rank r1) (Run.rank r2)
  | Gt => false
  end.

Definition lightning_ir_system : string := "lightning_ir".

Definition create_run_from_scores (query_ids : list string)
    (doc_ids : list (list string)) (scores : list pyfloat)
    : result (list Run.t) :=
  let num_docs := length <$> doc_ids in
  qcol ← np_repeat query_ids num_docs;
  df ← make_frame qcol (mjoin doc_ids) scores;
  let df :=
    (λ r, Run.mk (sr_index r) (sr_query_id r) 0 (sr_doc_id r) (sr_score r)
                 lightning_ir_system (group_rank df r)) <$> df in
  mret (stable_sort (run_leb (key_dict query_ids)) df).

(** ** [lightning_ir/models/mvr/model.py] *)

(** A tensor of rationals of any rank. *)
Local Unset Elimination Schemes.
Inductive tensor : Type :=
  | Scalar (x : Q)
  | Stack (rows : list tensor).

(** What a Python variable of the forward pass may hold. *)
Inductive pyval : Type :=
  | VNone
  | VTensor (t : tensor)
  | VTuple (items : list pyval).
Local Set Elimination Schemes.

(** [v[i]]. *)
Definition subscript (v : pyval) (i : Z) : result pyval :=
  match v with
  | VNone => Raise TypeError
  | VTensor (Scalar _) => Raise IndexError
  | VTensor (Stack rows) => VTensor <$> py_index rows i
  | VTuple items => py_index items i
  end.

Record BiEncoderEmbedding : Type := mkBiEncoderEmbedding {
  embeddings : tensor;
  emb_scoring_mask : list (list bool)
}.

Inductive num_docs_arg : Type :=
  | NumDocsSeq (counts : list Z)
  | NumDocsInt (n : Z)
  | NumDocsNone.

Inductive pooling : Type := pool_first | pool_mean | pool_max | pool_sum.

(** The inherited methods of [BiEncoderModel] that [MVRModel] calls. *)
Record BiEncoderModel : Type := mkBiEncoderModel {
  encode_query : BatchEncoding → BiEncoderEmbedding;
  encode_doc : BatchEncoding → BiEncoderEmbedding;
  scoring_function :
    BiEncoderEmbedding → BiEncoderEmbedding → num_docs_arg → tensor * tensor
}.

Module MVRModel.
Record t : Type := mk {
  super : BiEncoderModel;
  num_viewer_tokens : option Z
}.
End MVRModel.

Record MVROutput : Type := mkMVROutput {
  out_scores : pyval;
  out_query_embeddings : option BiEncoderEmbedding;
  out_doc_embeddings : option BiEncoderEmbedding;
  viewer_token_scores : pyval
}.

Definition MVRModel_score (self : MVRModel.t)
    (query_embeddings doc_embeddings : BiEncoderEmbedding)
    (num_docs : num_docs_arg) : pyval :=
  let '(scores, _) :=
    scoring_function (MVRModel.super self) query_embeddings doc_embeddings
                     num_docs in
  VTensor scores.

Definition MVRModel_forward (self : MVRModel.t)
    (query_encoding doc_encoding : option BatchEncoding)
    (num_docs : num_docs_arg) : result MVROutput :=
  let query_embeddings := encode_query (MVRModel.super self) <$> query_encoding in
  let doc_embeddings := encode_doc (MVRModel.super self) <$> doc_encoding in
  let scores :=
    match doc_embeddings, query_embeddings with
    | Some d, Some q => MVRModel_score self q d num_docs
    | _, _ => VNone
    end in
  scores0 ← subscript scores 0;
  scores1 ← subscript scores 1;
  mret (mkMVROutput scores0 query_embeddings doc_embeddings scores1).

(** [torch.ones((rows, cols), dtype=torch.bool)]. *)
Definition torch_ones (rows cols : Z) : result (list (list bool)) :=
  if decide (0 ≤ rows ∧ 0 ≤ cols)
  then Ok (replicate (Z.to_nat rows) (replicate (Z.to_nat cols) true))
  else Raise RuntimeError.

(** The two kinds of value [scoring_mask] returns: a mask tensor, or, without
    pooling, the inherited method object itself. *)
Inductive scoring_mask_result : Type :=
  | MaskTensor (mask : list (list bool))
  | SuperScoringMask.

Definition MVRModel_scoring_mask (self : MVRModel.t) (encoding : BatchEncoding)
    (expansion : bool) (pooling_strategy : option pooling)
    : result scoring_mask_result :=
  let shape0 := Z.of_nat (length (input_ids encoding)) in
  match pooling_strategy with
  | Some _ =>
      match MVRModel.num_viewer_tokens self with
      | Some n => MaskTensor <$> torch_ones shape0 n
      | None => MaskTensor <$> torch_ones shape0 1
      end
  | None => Ok SuperScoringMask
  end.

(** ** [mvr/searcher.py] and its test in [tests/test_callbacks.py] *)

(** [min(v)] on a Python list; [None] stands for the [ValueError] of an empty
    list, which the test never meets. *)
Definition py_min (v : list Q) : option Q :=
  match v with
  | [] => None
  | x :: v' => Some (foldl Qmin x v')
  end.

(** The reference computation of [test_sparse_doc_aggregation]: a
    [defaultdict(list)] that collects the scores of each document index of a
    row, then the minimum of every collected list. *)
Definition manual_doc_scores_row (token_scores : list Q) (doc_idcs : list nat)
    : gmap nat Q :=
  let doc_scores : gmap nat (list Q) :=
    foldl (λ d sm, <[sm.2 := default [] (d !! sm.2) ++ [sm.1]]> d) ∅
          (zip token_scores doc_idcs) in
  omap py_min doc_scores.

(** Modelled from the spec: [sparse_doc_aggregation] of [mvr/searcher.py],
    which is not part of the sources at hand.  Section 4.3 of the
    specification describes it as a scatter-reduce with the minimum as
    reduction: every output row starts out all missing, and every
    (score, document index) pair of the input row lowers the entry of its
    bucket.  The missing sentinel (not-a-number) is [None]. *)
Definition scatter_min (row : list (option Q)) (m : nat) (s : Q)
    : list (option Q) :=
  match row !! m with
  | Some None => <[m := Some s]> row
  | Some (Some cur) => <[m := Some (Qmin cur s)]> row
  | None => row
  end.

(** Modelled from the spec: one output row of [sparse_doc_aggregation]
    (missing from the sources), the scatter-reduce of section 4.3 run over
    the (score, document index) pairs of an input row, starting from [M]
    missing entries. *)
Definition aggregate_row (M : nat) (token_scores : list Q) (doc_idcs : list nat)
    : list (option Q) :=
  foldl (λ row sm, scatter_min row sm.2 sm.1) (replicate M None)
        (zip token_scores doc_idcs).

(** Modelled from the spec: the number of buckets of
    [sparse_doc_aggregation] (missing from the sources) when the caller gives
    no bound, [max(doc_indices) + 1]. *)
Definition num_buckets (doc_idcs : list (list nat)) : nat :=
  match mjoin doc_idcs with
  | [] => 0
  | idcs => S (max_list idcs)
  end.

(** Modelled from the spec: [sparse_doc_aggregation] of [mvr/searcher.py]
    (missing from the sources), row by row, with [M] the bound of the caller
    or else [max(doc_indices) + 1]. *)
Definition sparse_doc_aggregation (token_scores : list (list Q))
    (doc_idcs : list (list nat)) (bound : option nat)
    : list (list (option Q)) :=
  let M := default (num_buckets doc_idcs) bound in
  zip_with (aggregate_row M) token_scores doc_idcs.

(** ** Further parts of [tide/data.py] and [tide/datamodule.py] *)

(** A generator whose items are passed through a function, as when the
    records of [KDDocPairs.docpairs_iter] reach [TriplesDataset.__iter__]
    through [self.dataset.docpairs_iter()]. *)
Fixpoint gen_map {A B} (f : A → B) (g : gen A) : gen B :=
  match g with
  | Done => Done
  | Yield a rest => Yield (f a) (gen_map f rest)
  | Throw e => Throw e
  end.

(** [register_kd_docpairs]: the registry of [ir_datasets] is a dictionary
    from dataset ids to datasets.  The new dataset is assembled from the
    registered [msmarco-passage/train] dataset ([ir_datasets.load], which
    raises [KeyError] for an unknown id); [assemble] stands for the
    construction of the dataset object around the downloaded doc pairs. *)
Definition kd_docpairs_id : string := "msmarco-passage/train/kd-docpairs".
Definition msmarco_train_id : string := "msmarco-passage/train".

Definition register_kd_docpairs {D} (assemble : D → D)
    (registry : gmap string D) : result (gmap string D) :=
  match registry !! kd_docpairs_id with
  | Some _ => Ok registry
  | None =>
      ir_dataset ← py_getitem registry msmarco_train_id;
      mret (<[kd_docpairs_id := assemble ir_dataset]> registry)
  end.

(** *** [MVRDataModule.setup]

    What the data module reads from outside: the suffix of a path
    ([Path(p).suffix]), the run file and dataset behind a run path (the
    lookup of the file stem in [DASHED_DATASET_MAP], [ir_datasets.load] and
    [pd.read_csv], each of which may raise), and the dataset behind a
    dataset id. *)
Record Loaders : Type := mkLoaders {
  path_suffix : string → string;
  load_run_file : string → result (IRDataset * list RunRow);
  load_dataset : string → result IRDataset
}.

Inductive train_data : Type :=
  | TrainRun (d : RunDataset.t)
  | TrainTriples (d : TriplesDataset.t).

(** The fields of the data module that [setup] reads and the two attributes
    it assigns; an attribute that has not been assigned is [None]. *)
Module DataModuleState.
Record t : Type := mk {
  train_dataset : option string;
  inference_datasets : option (list string);
  train_run_config : option RunDatasetConfig.t;
  inference_run_config : option RunDatasetConfig.t;
  train_dataset_attr : option train_data;
  inference_datasets_attr : option (list RunDataset.t)
}.
End DataModuleState.

Definition set_train_dataset (self : DataModuleState.t) (d : train_data)
    : DataModuleState.t :=
  DataModuleState.mk (DataModuleState.train_dataset self)
    (DataModuleState.inference_datasets self)
    (DataModuleState.train_run_config self)
    (DataModuleState.inference_run_config self)
    (Some d) (DataModuleState.inference_datasets_attr self).

Definition set_inference_datasets (self : DataModuleState.t)
    (ds : list RunDataset.t) : DataModuleState.t :=
  DataModuleState.mk (DataModuleState.train_dataset self)
    (DataModuleState.inference_datasets self)
    (DataModuleState.train_run_config self)
    (DataModuleState.inference_run_config self)
    (DataModuleState.train_dataset_attr self) (Some ds).

(** [RunDataset(Path(path), config)] and [TriplesDataset(name)]. *)
Definition new_RunDataset (env : Loaders) (path : string)
    (config : RunDatasetConfig.t) : result RunDataset.t :=
  loaded ← load_run_file env path;
  mret (RunDataset_init loaded.1 loaded.2 config).

Definition new_TriplesDataset (env : Loaders) (name : string)
    : result TriplesDataset.t :=
  dataset ← load_dataset env name;
  mret (TriplesDataset_init dataset).

(** The branch of [setup] for the stage ["fit"]: the state afterwards and the
    exception raised, if any. *)
Definition setup_fit (env : Loaders) (self : DataModuleState.t)
    : DataModuleState.t * option exn :=
  match DataModuleState.train_dataset self with
  | None => (self, Some ValueError)
  | Some path =>
      if decide (path_suffix env path = ".run") then
        match DataModuleState.train_run_config self with
        | None => (self, Some ValueError)
        | Some config =>
            match new_RunDataset env path config with
            | Ok d => (set_train_dataset self (TrainRun d), None)
            | Raise e => (self, Some e)
            end
        end
      else
        match new_TriplesDataset env path with
        | Ok d => (set_train_dataset self (TrainTriples d), None)
        | Raise e => (self, Some e)
        end
  end.

(** The loop over [self.inference_datasets]: datasets are appended one by
    one until a constructor raises. *)
Fixpoint load_inference (env : Loaders) (config : RunDatasetConfig.t)
    (paths : list string) (acc : list RunDataset.t)
    : list RunDataset.t * option exn :=
  match paths with
  | [] => (acc, None)
  | path :: paths' =>
      match new_RunDataset env path config with
      | Ok d => load_inference env config paths' (acc ++ [d])
      | Raise e => (acc, Some e)
      end
  end.

Definition setup (env : Loaders) (self : DataModuleState.t) (stage : string)
    : DataModuleState.t * option exn :=
  let '(self, raised) :=
    if decide (stage = "fit") then setup_fit env self else (self, None) in
  match raised with
  | Some e => (self, Some e)
  | None =>
      let self := set_inference_datasets self [] in
      match DataModuleState.inference_datasets self with
      | None => (self, None)
      | Some paths =>
          match DataModuleState.inference_run_config self with
          | None => (self, Some ValueError)
          | Some config =>
              if decide (RunDatasetConfig.sampling_strategy config
                         = single_relevant)
              then (self, Some ValueError)
              else
                let '(datasets, raised) :=
                  load_inference env config paths [] in
                (set_inference_datasets self datasets, raised)
          end
      end
  end.

(** * Fixtures

    Small concrete inputs on which the definitions above are evaluated. *)

Module Fixtures.
(** A tokenizer that gives every text a row of [max_length] zero ids. *)
Definition pad_tokenizer : MVRTokenizer :=
  let enc (texts : list string) (n : Z) :=
    let m := (λ _ : string, replicate (Z.to_nat n) 0) <$> texts in
    mkBatchEncoding m m in
  mkMVRTokenizer enc enc.

Definition datamodule : MVRDataModule.t :=
  MVRDataModule.mk pad_tokenizer 4 0 2.

(** Two encoded texts of seven tokens each. *)
Definition encoding_2x7 : BatchEncoding :=
  mkBatchEncoding (replicate 2 (replicate 7 101)) (replicate 2 (replicate 7 1)).

Definition embedding_of (e : BatchEncoding) : BiEncoderEmbedding :=
  mkBiEncoderEmbedding
    (Stack ((λ row : list Z, Stack ((λ x, Scalar (inject_Z x)) <$> row))
              <$> input_ids e))
    ((λ row : list Z, (λ x, bool_decide (x ≠ 0)) <$> row)
       <$> attention_mask e).

(** A scoring function with fixed outputs: two document scores and a
    two-by-two matrix of token scores. *)
Definition doc_scores : tensor := Stack [Scalar 3; Scalar 5].
Definition token_scores : tensor :=
  Stack [Stack [Scalar 1; Scalar 2]; Stack [Scalar 2; Scalar 3]].

Definition bi_encoder : BiEncoderModel :=
  mkBiEncoderModel embedding_of embedding_of
                   (λ _ _ _, (doc_scores, token_scores)).

Definition mvr_model (num_viewer_tokens : option Z) : MVRModel.t :=
  MVRModel.mk bi_encoder num_viewer_tokens.

(** Python's [float] on the literals of the fixtures: [nan], [inf], [-inf]
    and plain decimal literals such as [0.75] or [12], whose value a float
    holds exactly.  Other strings are not used. *)
Fixpoint digits_value (acc : Z) (s : string) : option Z :=
  match s with
  | EmptyString => Some acc
  | String a s' =>
      d ← Ascii.is_nat a; digits_value (10 * acc + Z.of_nat d) s'
  end.

Fixpoint split_dot (s : string) : string * option string :=
  match s with
  | EmptyString => (EmptyString, None)
  | String a s' =>
      if decide (a = "."%char) then (EmptyString, Some s')
      else let '(i, f) := split_dot s' in (String a i, f)
  end.

Definition decimal_float (s : string) : option pyfloat :=
  if decide (s = "nan") then Some NaN
  else if decide (s = "inf") then Some PosInf
  else if decide (s = "-inf") then Some NegInf
  else
    let '(i, f) := split_dot s in
    let f := default EmptyString f in
    if decide (String.length i + String.length f = 0)%nat then None
    else
      n ← digits_value 0 (String.app i f);
      Some (Finite (Qmake n (Z.to_pos (10 ^ Z.of_nat (String.length f))))).

Definition collection : gmap string string :=
  list_to_map [("d1", "first text"); ("d2", "second text");
               ("d3", "third text"); ("d4", "fourth text");
               ("d5", "fifth text")].

Definition topics : gmap string string :=
  list_to_map [("q1", "first query"); ("q2", "second query")].

Definition kd_lines : list string := ["0.75 0.25 q1 d1 d2"].

(** Lines whose columns are separated by a tabulator, by the unit separator
    U+001F and by the no-break space U+00A0, with scores that are not
    finite; the last line has four columns. *)
Definition kd_lines_separated : list string :=
  [String.string_of_list_ascii
     (String.list_ascii_of_string "nan" ++ [ascii_of_N 0x09]
      ++ String.list_ascii_of_string "-inf  q1" ++ [ascii_of_N 0x1F]
      ++ String.list_ascii_of_string "d1"
      ++ [ascii_of_N 0xC2; ascii_of_N 0xA0]
      ++ String.list_ascii_of_string "d2" ++ [ascii_of_N 0x0A]);
   "0.5 inf q2 d2"].

(** A doc-pair stream with one scored record and one record that has no
    score attributes. *)
Definition docpairs : gen DocPair :=
  Yield (of_ScoredDocPair
           (mkScoredDocPair "q1" "d1" "d2" (Finite 0.75) (Finite 0.25)))
    (Yield (mkDocPair "q2" "d2" "d3" None None) Done).

Definition triples : TriplesDataset.t :=
  TriplesDataset_init (mkIRDataset topics collection [] docpairs).


(** Samples as the two datasets produce them: some with a relevance tuple,
    of different lengths, one without. *)
Definition mixed_samples : list Sample.t :=
  [Sample.mk "q1" "first query" ["d1"; "d2"] ["first text"; "second text"]
             [Finite 1; Finite 0] (Some [1%Q; 0%Q; 2%Q]);
   Sample.mk "q2" "second query" ["d2"; "d3"] ["second text"; "third text"]
             [Finite 0.75; Finite 0.25] None;
   Sample.mk "q2" "second query" ["d3"] ["third text"] [Finite 2]
             (Some [2%Q])].

(** A run file with five ranked documents for [q1] and two for [q2], given
    out of rank order.  The judgments grade the documents of [q1] as
    1, 0, -, 2, - in rank order; [q2] has no document graded above 0, and
    one judged document, [d5], that the run does not rank. *)
Definition run_file : list RunRow :=
  [mkRunRow "q2" "d3" 2 1.5; mkRunRow "q2" "d2" 1 2.5;
   mkRunRow "q1" "d3" 3 7; mkRunRow "q1" "d1" 1 9; mkRunRow "q1" "d2" 2 8;
   mkRunRow "q1" "d5" 5 5; mkRunRow "q1" "d4" 4 6]%Q.

Definition qrels : list Qrel :=
  [mkQrel "q1" "d1" 1; mkQrel "q1" "d2" 0; mkQrel "q1" "d4" 2;
   mkQrel "q2" "d2" 0; mkQrel "q2" "d5" 0; mkQrel "q3" "d1" 1].

Definition ir_dataset : IRDataset :=
  mkIRDataset topics collection qrels Done.

Definition run_dataset (strategy : strategy) (sample_size depth : Z)
    : RunDataset.t :=
  RunDataset_init ir_dataset run_file
    (RunDatasetConfig.mk relevance_field depth sample_size strategy).

(** A run file that lists a document twice for its query. *)
Definition run_file_repeated : list RunRow :=
  [mkRunRow "q1" "d1" 1 9; mkRunRow "q1" "d1" 2 8]%Q.

(** An environment with one run file, [runs/fixture.run], and one dataset
    id, [fixture/train]. *)
Definition loaders : Loaders :=
  mkLoaders
    (λ p, if decide (p = "runs/fixture.run") then ".run" else "")
    (λ p, if decide (p = "runs/fixture.run") then Ok (ir_dataset, run_file)
          else Raise KeyError)
    (λ n, if decide (n = "fixture/train")
          then Ok (mkIRDataset topics collection qrels docpairs)
          else Raise KeyError).

Definition module_state (train : option string)
    (inference : option (list string))
    (train_config inference_config : option RunDatasetConfig.t)
    : DataModuleState.t :=
  DataModuleState.mk train inference train_config inference_config None None.

(** Two streams of random numbers. *)
Definition zeros : rng := λ _, 0%nat.
Definition counting : rng := λ n, n.
End Fixtures.

(** * Properties *)

(** ** The scoring mask *)

(** A mask of shape [(b, n)] whose entries are all true. *)
Definition all_true_mask (b n : nat) (mask : list (list bool)) : Prop :=
  length mask = b ∧ Forall (λ row, length row = n ∧ Forall (eq true) row) mask.

Lemma all_true_mask_replicate b n :
  all_true_mask b n (replicate b (replicate n true)).
Proof.
  split; [apply length_replicate|].
  apply Forall_replicate. split; [apply length_replicate|].
  by apply Forall_replicate.
Qed.

(** C9.  With a pooling strategy, [scoring_mask] returns an all-true mask of
    shape [(b, n)], where [b] is the batch size of the encoding and [n] the
    configured number of viewer tokens, or 1 when none is configured; the
    mask is the same for every encoding of that batch size, whatever its
    sequence length. *)
Theorem scoring_mask_pooled (self : MVRModel.t) (encoding : BatchEncoding)
    (expansion : bool) (p : pooling) :
  let b := length (input_ids encoding) in
  let n := default 1 (MVRModel.num_viewer_tokens self) in
  0 ≤ n →
  ∃ mask,
    MVRModel_scoring_mask self encoding expansion (Some p)
      = Ok (MaskTensor mask)
    ∧ all_true_mask b (Z.to_nat n) mask
    ∧ ∀ encoding' expansion' p',
        length (input_ids encoding') = b →
        MVRModel_scoring_mask self encoding' expansion' (Some p')
          = Ok (MaskTensor mask).
Proof.
  intros b n Hn.
  exists (replicate b (replicate (Z.to_nat n) true)).
  assert (Hones : ∀ k : nat,
    torch_ones (Z.of_nat k) n = Ok (replicate k (replicate (Z.to_nat n) true))).
  { intros k. unfold torch_ones. rewrite decide_True by lia.
    by rewrite Nat2Z.id. }
  assert (Hmask : ∀ e x q, length (input_ids e) = b →
    MVRModel_scoring_mask self e x (Some q)
      = Ok (MaskTensor (replicate b (replicate (Z.to_nat n) true)))).
  { intros e x q He. unfold MVRModel_scoring_mask. rewrite He.
    subst n. destruct (MVRModel.num_viewer_tokens self) as [m|]; simpl in *;
      by rewrite Hones. }
  split; [by apply Hmask|]. split; [apply all_true_mask_replicate|].
  intros e x q He. by apply Hmask.
Qed.

(** With four viewer tokens and two texts of seven tokens, the mask is the
    two-by-four all-true matrix. *)
Lemma scoring_mask_pooled_witness :
  ∃ mask,
    MVRModel_scoring_mask (Fixtures.mvr_model (Some 4)) Fixtures.encoding_2x7
                          false (Some pool_mean) = Ok (MaskTensor mask)
    ∧ all_true_mask 2 4 mask
    ∧ ∀ encoding' expansion' p',
        length (input_ids encoding') = 2%nat →
        MVRModel_scoring_mask (Fixtures.mvr_model (Some 4)) encoding'
                              expansion' (Some p') = Ok (MaskTensor mask).
Proof.
  apply (scoring_mask_pooled (Fixtures.mvr_model (Some 4))
           Fixtures.encoding_2x7 false pool_mean).
  simpl. lia.
Defined.

(** ** The scorer and the forward pass *)

(** C1.  [score] unpacks the pair that the scoring function returns and
    gives back its first component only: the result is the document-score
    tensor, never a pair.  The forward pass indexes that tensor at 0 and 1,
    so on the fixture it stores the first document score as [scores] and the
    second document score as [viewer_token_scores]; the token-level tensor
    is lost. *)
Theorem score_drops_token_scores :
  (∀ self query_embeddings doc_embeddings num_docs,
     MVRModel_score self query_embeddings doc_embeddings num_docs
       = VTensor (scoring_function (MVRModel.super self) query_embeddings
                                   doc_embeddings num_docs).1)
  ∧ MVRModel_score (Fixtures.mvr_model None)
      (Fixtures.embedding_of Fixtures.encoding_2x7)
      (Fixtures.embedding_of Fixtures.encoding_2x7) NumDocsNone
    ≠ VTuple [VTensor Fixtures.doc_scores; VTensor Fixtures.token_scores]
  ∧ MVRModel_forward (Fixtures.mvr_model None) (Some Fixtures.encoding_2x7)
      (Some Fixtures.encoding_2x7) NumDocsNone
    = Ok (mkMVROutput (VTensor (Scalar 3))
            (Some (Fixtures.embedding_of Fixtures.encoding_2x7))
            (Some (Fixtures.embedding_of Fixtures.encoding_2x7))
            (VTensor (Scalar 5))).
Proof.
  split; [|split].
  - intros self q d n. unfold MVRModel_score.
    by destruct (scoring_function _ _ _ _).
  - discriminate.
  - reflexivity.
Qed.

(** ** The triples dataset *)

Example kd_docpairs_line :
  KDDocPairs.docpairs_iter Fixtures.decimal_float Fixtures.kd_lines
    = Yield (mkScoredDocPair "q1" "d1" "d2" (Finite 0.75) (Finite 0.25)) Done.
Proof. reflexivity. Qed.

(** Every white-space character separates columns and a score need not be
    finite; a line of four columns ends the stream with [ValueError]. *)
Example kd_docpairs_separators :
  KDDocPairs.docpairs_iter Fixtures.decimal_float Fixtures.kd_lines_separated
    = Yield (mkScoredDocPair "q1" "d1" "d2" NaN NegInf) (Throw ValueError).
Proof. reflexivity. Qed.

(** The keys a record needs: both documents and the query. *)
Definition resolvable (self : TriplesDataset.t) (doc : DocPair) : Prop :=
  is_Some (TriplesDataset.docs self !! dp_doc_id_a doc)
  ∧ is_Some (TriplesDataset.docs self !! dp_doc_id_b doc)
  ∧ is_Some (TriplesDataset.queries self !! dp_query_id doc).

(** The sample that belongs to a record: its two documents in order, no
    relevance, the scores of the record as targets, 1 and 0 in their place
    when the record has none. *)
Definition sample_of_record (doc : DocPair) (s : Sample.t) : Prop :=
  Sample.query_id s = dp_query_id doc
  ∧ Sample.doc_ids s = [dp_doc_id_a doc; dp_doc_id_b doc]
  ∧ length (Sample.docs s) = 2%nat
  ∧ Sample.relevance s = None
  ∧ (∀ a b, dp_score_a doc = Some a → dp_score_b doc = Some b →
            Sample.targets s = [a; b])
  ∧ (dp_score_a doc = None → dp_score_b doc = None →
     Sample.targets s = [Finite 1; Finite 0]).

Lemma triple_sample_ok self doc :
  resolvable self doc →
  ∃ s, triple_sample self doc = Ok s ∧ sample_of_record doc s.
Proof.
  intros ([da Ha] & [db Hb] & [q Hq]).
  unfold triple_sample, py_getitem. rewrite Ha, Hb, Hq. simpl.
  eexists; split; [reflexivity|].
  repeat split; simpl; try done.
  - by intros a b -> ->.
  - by intros -> ->.
Qed.

(** C8.  When the documents and the query of every streamed record can be
    looked up, iterating the triples dataset yields exactly one sample per
    record, in stream order; each has the two documents of its record, no
    relevance field, and as targets the scores of the record unchanged,
    or [(1, 0)] when the record carries none. *)
Theorem triples_iter_one_sample_per_record (self : TriplesDataset.t) :
  Forall (resolvable self) (yielded (TriplesDataset.docpairs self)) →
  Forall2 sample_of_record (yielded (TriplesDataset.docpairs self))
          (yielded (TriplesDataset_iter self))
  ∧ outcome (TriplesDataset_iter self) = outcome (TriplesDataset.docpairs self).
Proof.
  unfold TriplesDataset_iter.
  induction (TriplesDataset.docpairs self) as [|doc rest IH|e]; simpl.
  - by split; [constructor|].
  - intros Hall. apply Forall_cons in Hall as [Hdoc Hrest].
    destruct (triple_sample_ok self doc Hdoc) as (s & -> & Hs). simpl.
    destruct (IH Hrest) as [IH1 IH2]. by split; [constructor|].
  - by split; [constructor|].
Qed.

(** The explicit pair [(0.75, 0.25)] is kept, the missing pair becomes
    [(1, 0)]. *)
Lemma triples_iter_witness :
  Forall2 sample_of_record (yielded (TriplesDataset.docpairs Fixtures.triples))
          (yielded (TriplesDataset_iter Fixtures.triples))
  ∧ outcome (TriplesDataset_iter Fixtures.triples)
    = outcome (TriplesDataset.docpairs Fixtures.triples).
Proof.
  apply (triples_iter_one_sample_per_record Fixtures.triples).
  repeat constructor; vm_compute; eauto.
Defined.

Example triples_iter_targets :
  Sample.targets <$> yielded (TriplesDataset_iter Fixtures.triples)
    = [[Finite 0.75; Finite 0.25]; [Finite 1; Finite 0]].
Proof. reflexivity. Qed.

(** ** The batch collator *)

Section collate.
Context (self : MVRDataModule.t).

(** The loop of [collate_fn] in closed form. *)
Lemma collate_loop acc samples :
  foldl collate_step acc samples
  = mkAcc (acc_query_ids acc ++ (Sample.query_id <$> samples))
          (acc_queries acc ++ (Sample.query <$> samples))
          (acc_doc_ids acc ++ (Sample.doc_ids <$> samples))
          (acc_docs acc ++ mjoin (Sample.docs <$> samples))
          (acc_targets acc ++ mjoin (Sample.targets <$> samples))
          (acc_relevances acc ++ omap Sample.relevance samples).
Proof.
  revert acc. induction samples as [|s samples IH]; intros acc; simpl.
  - destruct acc; simpl. by rewrite !app_nil_r.
  - rewrite IH. unfold collate_step; simpl.
    destruct (Sample.relevance s); simpl;
      by rewrite <- !(assoc_L (++)).
Qed.

Lemma collate_doc_ids samples :
  Batch.doc_ids (collate_fn self samples) = Sample.doc_ids <$> samples.
Proof. unfold collate_fn. by rewrite collate_loop. Qed.

Lemma collate_targets samples :
  Batch.targets (collate_fn self samples)
  = mjoin (Sample.targets <$> samples).
Proof. unfold collate_fn. by rewrite collate_loop. Qed.

Lemma collate_relevance samples :
  Batch.relevance (collate_fn self samples)
  = match omap Sample.relevance samples with
    | [] => None
    | relevances => Some (pad_sequence relevances)
    end.
Proof. unfold collate_fn. by rewrite collate_loop. Qed.
End collate.


Lemma max_len_ge {A} (seqs : list (list A)) s :
  s ∈ seqs → (length s ≤ max_len seqs)%nat.
Proof.
  induction 1 as [s seqs|s s' seqs _ IH]; simpl; lia.
Qed.

Lemma max_len_attained {A} (seqs : list (list A)) :
  seqs ≠ [] → ∃ s, s ∈ seqs ∧ length s = max_len seqs.
Proof.
  induction seqs as [|s seqs IH]; [done|]. intros _. simpl.
  destruct (decide (max_len seqs ≤ length s)%nat) as [Hle|Hgt].
  - exists s. split; [left|lia].
  - destruct seqs as [|s' seqs']; [simpl in *; lia|].
    destruct IH as (t & Ht & Hlen); [done|].
    exists t. split; [by right|]. lia.
Qed.




(** The item accessor itself produces such a sample when the run file lists
    a document twice: the label lookup of the targets returns both rows for
    each of the two occurrences. *)
Example getitem_repeated_document :
  (λ m, match m with
        | Ok (s, _) => Some (Sample.doc_ids s, Sample.targets s)
        | Raise _ => None
        end)
    (RunDataset_getitem
       (RunDataset_init Fixtures.ir_dataset Fixtures.run_file_repeated
          (RunDatasetConfig.mk rank_field (-1) 2 top)) 0 Fixtures.zeros)
  = Some (["d1"; "d1"], [Finite 1; Finite 2; Finite 1; Finite 2]).
Proof. vm_compute. reflexivity. Qed.

(** C6.  The relevance field of a collated batch is absent exactly when no
    sample carries a relevance tuple.  Otherwise it has one row per carried
    tuple, in sample order; each row is its tuple followed by zeros, and all
    rows have the length of the longest carried tuple. *)
Theorem collate_relevance_padded (self : MVRDataModule.t)
    (samples : list Sample.t) :
  let carried := omap Sample.relevance samples in
  match Batch.relevance (collate_fn self samples) with
  | None => Forall (λ s, Sample.relevance s = None) samples
  | Some rel =>
      Exists (λ s, is_Some (Sample.relevance s)) samples
      ∧ Forall2 (λ tuple row,
                   row = tuple ++ replicate (max_len carried - length tuple) 0%Q
                   ∧ length row = max_len carried) carried rel
      ∧ (∃ tuple, tuple ∈ carried ∧ length tuple = max_len carried)
  end.
Proof.
  cbv zeta. rewrite collate_relevance.
  remember (omap Sample.relevance samples) as carried eqn:Hc.
  destruct carried as [|t ts].
  - apply Forall_forall. intros s Hs.
    destruct (Sample.relevance s) as [rel|] eqn:Hrel; [|done].
    assert (rel ∈ omap Sample.relevance samples) as Hin.
    { apply list_elem_of_omap. eauto. }
    rewrite <- Hc in Hin. by apply elem_of_nil in Hin.
  - assert (t ∈ omap Sample.relevance samples) as Hin.
    { rewrite <- Hc. left. }
    clear Hc. remember (t :: ts) as carried eqn:Hc.
    assert (carried ≠ []) as Hne by (by rewrite Hc).
    clear Hc. split; [|split].
    + apply list_elem_of_omap in Hin as (s & Hs & Hrel).
      apply Exists_exists. exists s. split; [done|]. by rewrite Hrel.
    + unfold pad_sequence. apply Forall2_fmap_r, Forall_Forall2_diag.
      apply Forall_forall. intros tuple Ht. unfold pad_to. split; [done|].
      pose proof (max_len_ge _ _ Ht).
      rewrite length_app, length_replicate. lia.
    + by apply max_len_attained.
Qed.

(** ** Sparse document aggregation *)

(** The scores of a row that are mapped to bucket [m], in column order. *)
Definition bucket (m : nat) (token_scores : list Q) (doc_idcs : list nat)
    : list Q :=
  (filter (λ sm, sm.2 = m) (zip token_scores doc_idcs)).*1.

Lemma elem_of_bucket m scores idcs s :
  s ∈ bucket m scores idcs ↔ ∃ j, idcs !! j = Some m ∧ scores !! j = Some s.
Proof.
  unfold bucket. rewrite list_elem_of_fmap. split.
  - intros ([s' m'] & -> & Hin). apply list_elem_of_filter in Hin as [Hm Hin].
    simpl in *. subst m'. apply list_elem_of_lookup in Hin as [j Hj].
    apply lookup_zip_with_Some in Hj as (s'' & m'' & Heq & Hs & Hm).
    simplify_eq. eauto.
  - intros (j & Hm & Hs). exists (s, m). split; [done|].
    apply list_elem_of_filter. split; [done|].
    apply list_elem_of_lookup. exists j.
    apply lookup_zip_with_Some. eauto.
Qed.

Lemma Qmin_cases (x y : Q) : Qmin x y = x ∨ Qmin x y = y.
Proof.
  unfold Qmin, GenericMinMax.gmin. destruct (x ?= y)%Q; auto.
Qed.

(** [py_min] is the minimum: an element of the list below all of them. *)
Definition is_min_of (o : option Q) (v : list Q) : Prop :=
  match o with
  | None => v = []
  | Some x => x ∈ v ∧ Forall (Qle x) v
  end.

Lemma foldl_Qmin_is_min x v :
  foldl Qmin x v ∈ x :: v ∧ Forall (Qle (foldl Qmin x v)) (x :: v).
Proof.
  revert x. induction v as [|y v IH]; intros x; simpl.
  - split; [left|]. repeat constructor. apply Qle_refl.
  - destruct (IH (Qmin x y)) as [Hin Hle].
    apply Forall_cons in Hle as [Hle1 Hle2]. split.
    + apply elem_of_cons in Hin as [->|Hin].
      * destruct (Qmin_cases x y) as [->| ->]; [left|right; left].
      * by do 2 right.
    + repeat apply Forall_cons_2; [| |done].
      * eapply Qle_trans; [exact Hle1|apply Q.le_min_l].
      * eapply Qle_trans; [exact Hle1|apply Q.le_min_r].
Qed.

Lemma py_min_is_min v : is_min_of (py_min v) v.
Proof. destruct v as [|x v]; simpl; [done|apply foldl_Qmin_is_min]. Qed.

(** One step of the scatter-reduce on the entry of a bucket. *)
Definition lower (cur : option Q) (s : Q) : option Q :=
  match cur with
  | None => Some s
  | Some c => Some (Qmin c s)
  end.

Lemma foldl_lower_py_min v : foldl lower None v = py_min v.
Proof.
  destruct v as [|x v]; simpl; [done|].
  revert x. induction v as [|y v IH]; intros x; simpl; [done|apply IH].
Qed.

Lemma scatter_min_length row m s : length (scatter_min row m s) = length row.
Proof.
  unfold scatter_min. destruct (row !! m) as [[c|]|]; by rewrite ?length_insert.
Qed.

Lemma scatter_min_lookup row m' s m :
  (m < length row)%nat →
  scatter_min row m' s !! m
  = if decide (m' = m) then (λ cur, lower cur s) <$> row !! m else row !! m.
Proof.
  intros Hm. unfold scatter_min.
  destruct (decide (m' = m)) as [->|Hne].
  - destruct (lookup_lt_is_Some_2 row m Hm) as [cur Hcur]. rewrite Hcur.
    destruct cur as [c|]; by rewrite list_lookup_insert_eq.
  - destruct (row !! m') as [[c|]|]; by rewrite ?list_lookup_insert_ne.
Qed.

Lemma aggregate_fold_lookup (pairs : list (Q * nat)) row m :
  (m < length row)%nat →
  foldl (λ row sm, scatter_min row sm.2 sm.1) row pairs !! m
  = (λ cur, foldl lower cur (filter (λ sm, sm.2 = m) pairs).*1) <$> row !! m.
Proof.
  revert row. induction pairs as [|[s m'] pairs IH]; intros row Hm; simpl.
  - by destruct (row !! m).
  - rewrite IH by (by rewrite scatter_min_length).
    rewrite scatter_min_lookup by done.
    destruct (lookup_lt_is_Some_2 row m Hm) as [cur Hcur]. rewrite Hcur.
    rewrite filter_cons. simpl. by destruct (decide (m' = m)).
Qed.

Lemma aggregate_row_length M scores idcs :
  length (aggregate_row M scores idcs) = M.
Proof.
  unfold aggregate_row.
  assert (∀ (pairs : list (Q * nat)) row,
    length (foldl (λ row sm, scatter_min row sm.2 sm.1) row pairs)
    = length row) as Hlen.
  { induction pairs as [|p pairs IH]; intros row; simpl; [done|].
    by rewrite IH, scatter_min_length. }
  by rewrite Hlen, length_replicate.
Qed.

Lemma aggregate_row_lookup M scores idcs m :
  (m < M)%nat →
  aggregate_row M scores idcs !! m = Some (py_min (bucket m scores idcs)).
Proof.
  intros Hm. unfold aggregate_row.
  rewrite aggregate_fold_lookup by (by rewrite length_replicate).
  rewrite lookup_replicate_2 by done. simpl.
  by rewrite foldl_lower_py_min.
Qed.

(** The dictionary of the test collects exactly the buckets. *)
Lemma manual_fold_lookup (pairs : list (Q * nat)) (d : gmap nat (list Q)) m :
  foldl (λ d sm, <[sm.2 := default [] (d !! sm.2) ++ [sm.1]]> d) d pairs !! m
  = match (filter (λ sm, sm.2 = m) pairs).*1 with
    | [] => d !! m
    | b => Some (default [] (d !! m) ++ b)
    end.
Proof.
  revert d. induction pairs as [|[s m'] pairs IH]; intros d; simpl; [done|].
  rewrite IH, filter_cons. cbn [snd fst].
  destruct (decide (m' = m)) as [->|Hne].
  - rewrite fmap_cons, lookup_insert_eq. cbn [fst].
    generalize ((filter (λ sm : Q * nat, sm.2 = m) pairs).*1). intros b.
    destruct b; simpl; [done|]. by rewrite <- (assoc_L (++)).
  - by rewrite lookup_insert_ne.
Qed.

Lemma manual_doc_scores_row_lookup scores idcs m :
  manual_doc_scores_row scores idcs !! m = py_min (bucket m scores idcs).
Proof.
  unfold manual_doc_scores_row. rewrite lookup_omap, manual_fold_lookup.
  fold (bucket m scores idcs). rewrite lookup_empty.
  by destruct (bucket m scores idcs).
Qed.

(** C2.  For score and index matrices of one shape [(N, K)], the aggregation
    returns [N] rows of [M] entries.  Entry [[i, m]] is missing when no
    column of row [i] is mapped to bucket [m]; otherwise it is a score of
    row [i] mapped to [m] that is at most every score of row [i] mapped to
    [m].  It is the value the reference computation of the test looks up.
    The row [5, 3, 9] with buckets [1, 1, 0] gives [9, 3]. *)
Theorem sparse_doc_aggregation_min (token_scores : list (list Q))
    (doc_idcs : list (list nat)) (bound : option nat) :
  Forall2 (λ scores idcs, length scores = length idcs) token_scores doc_idcs →
  let M := default (num_buckets doc_idcs) bound in
  let out := sparse_doc_aggregation token_scores doc_idcs bound in
  length out = length token_scores
  ∧ Forall (λ row, length row = M) out
  ∧ (∀ i m scores idcs,
       token_scores !! i = Some scores → doc_idcs !! i = Some idcs →
       (m < M)%nat →
       ∃ entry,
         out !! i ≫= (.!! m) = Some entry
         ∧ entry = manual_doc_scores_row scores idcs !! m
         ∧ match entry with
           | None => ∀ j, idcs !! j ≠ Some m
           | Some v =>
               (∃ j, idcs !! j = Some m ∧ scores !! j = Some v)
               ∧ ∀ j s, idcs !! j = Some m → scores !! j = Some s → (v <= s)%Q
           end)
  ∧ sparse_doc_aggregation [[5; 3; 9]%Q] [[1; 1; 0]%nat] None
    = [[Some 9%Q; Some 3%Q]].
Proof.
  intros Hshape M out. subst out. unfold sparse_doc_aggregation. fold M.
  split; [|split; [|split]].
  - rewrite length_zip_with. apply Forall2_length in Hshape. lia.
  - apply Forall_forall. intros row Hrow.
    apply elem_of_lookup_zip_with in Hrow as (i & scores & idcs & -> & _).
    apply aggregate_row_length.
  - intros i m scores idcs Hs Hd Hm.
    exists (py_min (bucket m scores idcs)).
    rewrite lookup_zip_with, Hs, Hd. simpl.
    split; [by apply aggregate_row_lookup|].
    split; [by rewrite manual_doc_scores_row_lookup|].
    pose proof (py_min_is_min (bucket m scores idcs)) as Hmin.
    assert (length scores = length idcs) as Hlen.
    { exact (Forall2_lookup_lr _ _ _ i _ _ Hshape Hs Hd). }
    destruct (py_min (bucket m scores idcs)) as [v|]; simpl in Hmin.
    + destruct Hmin as [Hin Hle]. split.
      * by apply elem_of_bucket.
      * intros j s Hj Hsj. eapply Forall_forall in Hle; [exact Hle|].
        apply elem_of_bucket. eauto.
    + intros j Hj.
      destruct (lookup_lt_is_Some_2 scores j) as [s Hsj].
      { rewrite Hlen. eapply lookup_lt_Some, Hj. }
      assert (s ∈ bucket m scores idcs) as Hin by (apply elem_of_bucket; eauto).
      rewrite Hmin in Hin. by apply elem_of_nil in Hin.
  - reflexivity.
Qed.

Lemma sparse_doc_aggregation_witness :
  let token_scores := [[5; 3; 9]; [2; 7; 4]]%Q in
  let doc_idcs := [[1; 1; 0]; [2; 2; 2]]%nat in
  let out := sparse_doc_aggregation token_scores doc_idcs None in
  length out = 2%nat
  ∧ Forall (λ row, length row = 3%nat) out
  ∧ out = [[Some 9%Q; Some 3%Q; None]; [None; None; Some 2%Q]].
Proof.
  pose proof (sparse_doc_aggregation_min
                [[5; 3; 9]; [2; 7; 4]]%Q [[1; 1; 0]; [2; 2; 2]]%nat None)
    as Hmin.
  destruct Hmin as (Hlen & Hrows & _); [by repeat constructor|].
  split; [exact Hlen|]. split; [exact Hrows|reflexivity].
Defined.

(** ** Stable sorting *)

Section stable_sort.
Context {A : Type} (leb : A → A → bool).

Lemma insert_sorted_Permutation x l : insert_sorted leb x l ≡ₚ x :: l.
Proof.
  induction l as [|y l IH]; simpl; [done|].
  destruct (leb x y); [done|]. rewrite IH. apply Permutation_swap.
Qed.

Lemma stable_sort_Permutation l : stable_sort leb l ≡ₚ l.
Proof.
  induction l as [|x l IH]; simpl; [done|].
  by rewrite insert_sorted_Permutation, IH.
Qed.

Lemma elem_of_stable_sort x l : x ∈ stable_sort leb l ↔ x ∈ l.
Proof. by rewrite stable_sort_Permutation. Qed.

Lemma length_stable_sort l : length (stable_sort leb l) = length l.
Proof. by rewrite stable_sort_Permutation. Qed.

Context (leb_total : ∀ x y, leb x y = true ∨ leb y x = true).
Context (leb_trans : ∀ x y z, leb x y = true → leb y z = true → leb x z = true).

Lemma insert_sorted_StronglySorted x l :
  StronglySorted (λ a b, leb a b = true) l →
  StronglySorted (λ a b, leb a b = true) (insert_sorted leb x l).
Proof.
  induction 1 as [|y l Hl IH Hy]; simpl; [by repeat constructor|].
  destruct (leb x y) eqn:Hxy.
  - constructor; [by constructor|]. constructor; [done|].
    eapply Forall_impl; [exact Hy|]. intros z Hz. by eapply leb_trans.
  - constructor; [done|]. rewrite insert_sorted_Permutation.
    constructor; [|done]. destruct (leb_total x y); congruence.
Qed.

Lemma stable_sort_StronglySorted l :
  StronglySorted (λ a b, leb a b = true) (stable_sort leb l).
Proof.
  induction l as [|x l IH]; simpl; [constructor|].
  by apply insert_sorted_StronglySorted.
Qed.
End stable_sort.

Lemma StronglySorted_filter {A} (R : relation A) (P : A → Prop)
    `{∀ x, Decision (P x)} l :
  StronglySorted R l → StronglySorted R (filter P l).
Proof.
  induction 1 as [|x l Hl IH Hx]; [constructor|].
  rewrite filter_cons. destruct (decide (P x)); [|done].
  constructor; [done|].
  rewrite Forall_forall in *. intros y [_ Hy]%list_elem_of_filter. auto.
Qed.

Lemma StronglySorted_impl {A} (R R' : relation A) (P : A → Prop) l :
  (∀ x y, P x → P y → R x y → R' x y) →
  Forall P l → StronglySorted R l → StronglySorted R' l.
Proof.
  intros HR HP Hs. induction Hs as [|x l Hl IH Hx]; [constructor|].
  apply Forall_cons in HP as [Hpx HP].
  constructor; [by apply IH|].
  rewrite Forall_forall in *. intros y Hy. apply HR; auto.
Qed.

(** ** The order of the run table *)

Lemma string_compare_refl (s : string) : (s ?= s)%string = Eq.
Proof.
  induction s as [|a s IH]; simpl; [done|].
  unfold Ascii.compare. by rewrite N.compare_refl.
Qed.

Lemma string_compare_Lt_trans (a b c : string) :
  (a ?= b)%string = Lt → (b ?= c)%string = Lt → (a ?= c)%string = Lt.
Proof.
  intros Hab Hbc.
  assert (String.le a c) as Hac.
  { transitivity b; unfold String.le, String.leb; [by rewrite Hab|by rewrite Hbc]. }
  unfold String.le, String.leb in Hac.
  destruct (a ?= c)%string eqn:Heq; [|done|done].
  apply String.compare_eq_iff in Heq as ->.
  rewrite String.compare_antisym in Hbc. rewrite Hab in Hbc. done.
Qed.

Lemma nan_last_leb_total a b :
  nan_last_leb a b = true ∨ nan_last_leb b a = true.
Proof. destruct a, b; simpl; auto. lia. Qed.

Lemma nan_last_leb_trans a b c :
  nan_last_leb a b = true → nan_last_leb b c = true → nan_last_leb a c = true.
Proof. destruct a, b, c; simpl; auto; try done. lia. Qed.

Lemma row_leb_total r1 r2 : row_leb r1 r2 = true ∨ row_leb r2 r1 = true.
Proof.
  unfold row_leb.
  rewrite (String.compare_antisym (Row.query_id r2) (Row.query_id r1)).
  destruct (Row.query_id r1 ?= Row.query_id r2)%string; simpl; auto.
  apply nan_last_leb_total.
Qed.

Lemma row_leb_trans r1 r2 r3 :
  row_leb r1 r2 = true → row_leb r2 r3 = true → row_leb r1 r3 = true.
Proof.
  unfold row_leb.
  destruct (Row.query_id r1 ?= Row.query_id r2)%string eqn:H12; [| |done].
  - apply String.compare_eq_iff in H12 as ->.
    destruct (Row.query_id r2 ?= Row.query_id r3)%string; [|done|done].
    apply nan_last_leb_trans.
  - intros _.
    destruct (Row.query_id r2 ?= Row.query_id r3)%string eqn:H23; [| |done].
    + apply String.compare_eq_iff in H23 as <-. by rewrite H12.
    + by rewrite (string_compare_Lt_trans _ _ _ H12 H23).
Qed.

(** The rows of a query, as [get_group] returns them. *)
Definition group_rows (self : RunDataset.t) (query_id : string) : list Row.t :=
  filter (λ r, Row.query_id r = query_id) (RunDataset.run self).

(** Within a query the table is in rank order, rows without rank last. *)
Definition rank_order : relation Row.t :=
  λ r1 r2, nan_last_leb (Row.rank r1) (Row.rank r2) = true.

Lemma group_rows_rank_order dataset run_file config query_id :
  StronglySorted rank_order
    (group_rows (RunDataset_init dataset run_file config) query_id).
Proof.
  unfold group_rows. simpl.
  apply (StronglySorted_impl (λ r1 r2, row_leb r1 r2 = true) _
           (λ r, Row.query_id r = query_id)).
  - intros r1 r2 H1 H2 Hle. unfold rank_order. unfold row_leb in Hle.
    by rewrite H1, H2, string_compare_refl in Hle.
  - apply Forall_forall. by intros r [? _]%list_elem_of_filter.
  - apply StronglySorted_filter, stable_sort_StronglySorted.
    + apply row_leb_total.
    + apply row_leb_trans.
Qed.

Lemma get_group_query_ids dataset run_file config query_id :
  let self := RunDataset_init dataset run_file config in
  query_id ∈ RunDataset.query_ids self →
  get_group self query_id = Ok (group_rows self query_id)
  ∧ group_rows self query_id ≠ [].
Proof.
  intros self Hin. unfold get_group. fold (group_rows self query_id).
  assert (group_rows self query_id ≠ []) as Hne.
  { subst self. simpl in Hin.
    rewrite elem_of_stable_sort, elem_of_remove_dups in Hin.
    apply list_elem_of_fmap in Hin as (r & -> & Hr).
    intros Hnil. assert (r ∈ @nil Row.t) as Habs; [|by apply elem_of_nil in Habs].
    rewrite <- Hnil. apply list_elem_of_filter. by split. }
  split; [|done]. by destruct (group_rows self query_id).
Qed.

Lemma py_index_elem_of {A} (xs : list A) i x : py_index xs i = Ok x → x ∈ xs.
Proof.
  unfold py_index. intros Hidx. repeat case_decide; try done.
  - destruct (xs !! Z.to_nat i) eqn:Hl; [|done].
    simplify_eq. by eapply list_elem_of_lookup_2.
  - destruct (xs !! Z.to_nat (Z.of_nat (length xs) + i)) eqn:Hl; [|done].
    simplify_eq. by eapply list_elem_of_lookup_2.
Qed.

(** ** The depth cutoff *)

Lemma elem_of_filter_depth depth run r :
  r ∈ filter_depth depth run ↔ r ∈ run ∧ (depth = -1 ∨ run_rank r ≤ depth).
Proof.
  unfold filter_depth. destruct (decide (depth ≠ -1)) as [Hd|Hd].
  - rewrite list_elem_of_filter. split; [intros [? ?]; auto|].
    intros [? [?|?]]; [done|auto].
  - assert (depth = -1) as Heq by lia. split; [auto|by intros [? _]].
Qed.

(** The ranked rows of an outer join are the rows of its left table. *)
Lemma merge_outer_ranked run qrels q d k :
  (∃ row, row ∈ merge_outer run qrels ∧ Row.query_id row = q
          ∧ Row.doc_id row = d ∧ Row.rank row = Some k)
  ↔ (∃ r, r ∈ run ∧ run_query_id r = q ∧ run_doc_id r = d ∧ run_rank r = k).
Proof.
  unfold merge_outer. setoid_rewrite elem_of_stable_sort.
  setoid_rewrite elem_of_app. setoid_rewrite list_elem_of_bind. split.
  - intros (row & [(r & Hrow & Hr)|(j & Hrow & Hj)] & Hq & Hd & Hk).
    + exists r. split; [done|].
      destruct (filter (same_key r) qrels) as [|j js].
      * apply list_elem_of_singleton in Hrow. subst row. simpl in *.
        by simplify_eq.
      * apply list_elem_of_fmap in Hrow as (j' & -> & _). simpl in *.
        by simplify_eq.
    + case_decide; [by apply elem_of_nil in Hrow|].
      apply list_elem_of_singleton in Hrow. by subst row.
  - intros (r & Hr & Hq & Hd & Hk).
    destruct (filter (same_key r) qrels) as [|j js] eqn:Hms.
    + exists (Row.mk q d (Some k) (Some (run_score r)) None).
      split; [|done]. left. exists r. rewrite Hms. subst.
      split; [apply list_elem_of_singleton; done|done].
    + exists (Row.mk q d (Some k) (Some (run_score r))
                     (Some (qrel_relevance j))).
      split; [|done]. left. exists r. rewrite Hms. subst.
      split; [|done]. apply list_elem_of_fmap. exists j. split; [done|left].
Qed.

(** C7.  The table of a graded-run dataset is the outer join of the
    judgments with the run rows that pass the depth cutoff: a run row has a
    ranked row in the table exactly when its rank is at most the depth, or
    the depth is [-1].  With depth [-1] the cutoff keeps the run as it is;
    otherwise it keeps, in order, the rows whose rank is at most the depth. *)
Theorem depth_cutoff_before_join (dataset : IRDataset)
    (run_file : list RunRow) (config : RunDatasetConfig.t) :
  let depth := RunDatasetConfig.depth config in
  let self := RunDataset_init dataset run_file config in
  let kept := filter_depth depth run_file in
  RunDataset.run self
    = stable_sort row_leb
        (merge_outer kept (restrict_qrels kept (ir_qrels dataset)))
  ∧ (∀ r, r ∈ kept ↔ r ∈ run_file ∧ (depth = -1 ∨ run_rank r ≤ depth))
  ∧ (depth = -1 → kept = run_file)
  ∧ (depth ≠ -1 → kept = filter (λ r, run_rank r ≤ depth) run_file)
  ∧ (∀ q d k,
       (∃ row, row ∈ RunDataset.run self ∧ Row.query_id row = q
               ∧ Row.doc_id row = d ∧ Row.rank row = Some k)
       ↔ (∃ r, r ∈ run_file ∧ run_query_id r = q ∧ run_doc_id r = d
               ∧ run_rank r = k ∧ (depth = -1 ∨ k ≤ depth))).
Proof.
  intros depth self kept. split; [done|]. split; [|split; [|split]].
  - intros r. apply elem_of_filter_depth.
  - intros Hd. subst kept. unfold filter_depth. by rewrite decide_False by lia.
  - intros Hd. subst kept. unfold filter_depth. by rewrite decide_True.
  - intros q d k. subst self kept depth. simpl.
    setoid_rewrite elem_of_stable_sort. rewrite merge_outer_ranked.
    setoid_rewrite elem_of_filter_depth. split.
    + intros (r & [Hr Hd] & Hq & Hdoc & Hk). exists r. by rewrite <- Hk.
    + intros (r & Hr & Hq & Hdoc & Hk & Hd). exists r. by rewrite Hk.
Qed.

Example depth_cutoff_fixture :
  Row.doc_id <$> group_rows (Fixtures.run_dataset top 3 2) "q1"
    = ["d1"; "d2"; "d4"]
  ∧ Row.rank <$> group_rows (Fixtures.run_dataset top 3 2) "q1"
    = [Some 1; Some 2; None]
  ∧ Row.doc_id <$> group_rows (Fixtures.run_dataset top 3 (-1)) "q1"
    = ["d1"; "d2"; "d3"; "d4"; "d5"].
Proof. vm_compute. done. Qed.

(** ** Items of the graded-run dataset *)

Lemma py_getitem_Some {V} (d : gmap string V) k v :
  d !! k = Some v → py_getitem d k = Ok v.
Proof. intros Hv. unfold py_getitem. by rewrite Hv. Qed.

Lemma py_getitem_None {V} (d : gmap string V) k :
  d !! k = None → py_getitem d k = Raise KeyError.
Proof. intros Hv. unfold py_getitem. by rewrite Hv. Qed.

Lemma mapM_result_cons {A B} (f : A → result B) x xs :
  mapM_result f (x :: xs)
  = match f x with
    | Ok y => match mapM_result f xs with
              | Ok ys => Ok (y :: ys)
              | Raise e => Raise e
              end
    | Raise e => Raise e
    end.
Proof. done. Qed.

Lemma mapM_result_getitem {V} (d : gmap string V) (ks : list string) :
  Forall (λ k, is_Some (d !! k)) ks →
  ∃ vs, mapM_result (py_getitem d) ks = Ok vs ∧ length vs = length ks.
Proof.
  induction 1 as [|k ks [v Hv] _ (vs & IH & Hlen)].
  - by exists [].
  - rewrite mapM_result_cons, (py_getitem_Some _ _ _ Hv), IH.
    exists (v :: vs). simpl. by rewrite <- Hlen.
Qed.

Lemma filter_none {A} (P : A → Prop) `{∀ x, Decision (P x)} (l : list A) :
  (∀ y, y ∈ l → ¬ P y) → filter P l = [].
Proof.
  induction l as [|a l IH]; intros Hnone; [done|].
  rewrite filter_cons, decide_False by (apply Hnone; left).
  apply IH. intros y Hy. apply Hnone. by right.
Qed.

Lemma filter_key_NoDup {A B} `{EqDecision B} (f : A → B) (l : list A) x :
  NoDup (f <$> l) → x ∈ l → filter (λ y, f y = f x) l = [x].
Proof.
  induction l as [|a l IH]; intros Hnd Hx; [by apply elem_of_nil in Hx|].
  rewrite fmap_cons in Hnd. apply NoDup_cons in Hnd as [Ha Hnd].
  assert (∀ y, y ∈ l → f y ≠ f a) as Hfresh.
  { intros y Hy Heq. apply Ha. rewrite <- Heq. by apply list_elem_of_fmap_2. }
  rewrite filter_cons. apply elem_of_cons in Hx as [->|Hx].
  - rewrite decide_True by done. f_equal. by apply filter_none.
  - rewrite decide_False; [by apply IH|].
    intros Heq. by apply (Hfresh x Hx).
Qed.

(** With distinct document ids the targets are those of the rows, in row
    order. *)
Lemma loc_targets_NoDup field (group : list Row.t) :
  NoDup (Row.doc_id <$> group) →
  loc_targets field group (Row.doc_id <$> group)
  = (λ r, Finite (inject_Z (fillna 0 (target_of field r)))) <$> group.
Proof.
  intros Hnd. unfold loc_targets.
  assert (∀ rows : list Row.t, (∀ r, r ∈ rows → r ∈ group) →
    (Row.doc_id <$> rows) ≫=
      (λ d, (λ r, Finite (inject_Z (fillna 0 (target_of field r))))
              <$> filter (λ r, Row.doc_id r = d) group)
    = (λ r, Finite (inject_Z (fillna 0 (target_of field r)))) <$> rows)
    as Hrows.
  { induction rows as [|r rows IH]; intros Hsub; [done|].
    rewrite fmap_cons, bind_cons, fmap_cons.
    rewrite (filter_key_NoDup Row.doc_id group r Hnd) by (apply Hsub; left).
    simpl. f_equal. apply IH. intros r' Hr'. apply Hsub. by right. }
  by apply Hrows.
Qed.

(** C3, as amended.  With the "top" strategy and a sample size [n >= 0], the
    item of a query whose text and first [n] documents can be looked up is
    a sample of the first [n] rows of the query in rank order (rows without
    rank last).  Its relevance tuple lists the relevance, missing read as 0,
    of all rows of the query in that order, not only of the sampled ones;
    the first [n] entries are those of the sampled documents.  The targets
    are taken from the sampled rows and, when their document ids are
    distinct, are aligned with them.  No random number is consumed. *)
Theorem top_sample_first_rows (dataset : IRDataset) (run_file : list RunRow)
    (config : RunDatasetConfig.t) (idx : Z) (g : rng) (query_id : string) :
  let self := RunDataset_init dataset run_file config in
  let n := Z.to_nat (RunDatasetConfig.sample_size config) in
  let group := group_rows self query_id in
  let rel := λ r, inject_Z (fillna 0 (Row.relevance r)) in
  RunDatasetConfig.sampling_strategy config = top →
  0 ≤ RunDatasetConfig.sample_size config →
  py_index (RunDataset.query_ids self) idx = Ok query_id →
  is_Some (RunDataset.queries self !! query_id) →
  Forall (λ r, is_Some (RunDataset.docs self !! Row.doc_id r)) (take n group) →
  ∃ sample,
    RunDataset_getitem self idx g = Ok (sample, g)
    ∧ Sample.query_id sample = query_id
    ∧ StronglySorted rank_order group
    ∧ Sample.doc_ids sample = Row.doc_id <$> take n group
    ∧ length (Sample.docs sample) = length (Sample.doc_ids sample)
    ∧ Sample.relevance sample = Some (rel <$> group)
    ∧ take n (rel <$> group) = rel <$> take n group
    ∧ (NoDup (Row.doc_id <$> take n group) →
       Sample.targets sample
       = (λ r, Finite (inject_Z (fillna 0 (target_of
                                             (RunDatasetConfig.targets config)
                                             r))))
           <$> take n group).
Proof.
  intros self n group rel Htop Hn Hidx [query Hquery] Hdocs.
  pose proof (get_group_query_ids dataset run_file config query_id
                (py_index_elem_of _ _ _ Hidx)) as [Hgroup _].
  fold self in Hgroup. fold group in Hgroup.
  destruct (mapM_result_getitem (RunDataset.docs self)
              (Row.doc_id <$> take n group)) as (docs & Hlookup & Hlen).
  { by apply Forall_fmap. }
  exists (Sample.mk query_id query (Row.doc_id <$> take n group) docs
            (loc_targets (RunDatasetConfig.targets config) (take n group)
                         (Row.doc_id <$> take n group))
            (Some (rel <$> group))).
  split; [|split; [done|split; [|split; [done|split; [done|split; [done|split]]]]]].
  - unfold RunDataset_getitem, mbind, rand_bind, lift.
    rewrite Hidx, Hgroup, (py_getitem_Some _ _ _ Hquery).
    replace (RunDataset.config self) with config by done.
    rewrite Htop. simpl. unfold frame_head. rewrite decide_True by done.
    fold n. change (RunDataset.docs self) with (ir_docs dataset) in Hlookup.
    by rewrite Hlookup.
  - apply group_rows_rank_order.
  - by rewrite fmap_take.
  - intros Hnd. simpl. by apply loc_targets_NoDup.
Qed.

(** The spec's example: three of five ranked documents. *)
Lemma top_sample_first_rows_witness :
  ∃ sample,
    RunDataset_getitem (Fixtures.run_dataset top 3 (-1)) 0 Fixtures.zeros
      = Ok (sample, Fixtures.zeros)
    ∧ Sample.doc_ids sample = ["d1"; "d2"; "d3"]
    ∧ Sample.targets sample = [Finite 1; Finite 0; Finite 0]
    ∧ Sample.relevance sample = Some [1; 0; 0; 2; 0]%Q.
Proof.
  destruct (top_sample_first_rows Fixtures.ir_dataset Fixtures.run_file
              (RunDatasetConfig.mk relevance_field (-1) 3 top) 0
              Fixtures.zeros "q1") as (sample & Hitem & _);
    [reflexivity|simpl; lia|reflexivity|by eexists
    |repeat constructor; by eexists|].
  exists sample. split; [exact Hitem|].
  vm_compute in Hitem. by simplify_eq.
Defined.

(** C3 as stated fails on the spec's own example: the relevance tuple of
    the sample has five entries, one for every row of the query, although
    three documents are sampled. *)
Lemma top_sample_relevance_counterexample :
  ∃ sample,
    RunDataset_getitem (Fixtures.run_dataset top 3 (-1)) 0 Fixtures.zeros
      = Ok (sample, Fixtures.zeros)
    ∧ Sample.doc_ids sample = ["d1"; "d2"; "d3"]
    ∧ Sample.relevance sample = Some [1; 0; 0; 2; 0]%Q
    ∧ Sample.relevance sample ≠ Some [1; 0; 0]%Q.
Proof.
  eexists. split; [vm_compute; reflexivity|]. by repeat split.
Qed.

(** *** Sampling without replacement *)

Lemma draw_submseteq {A} (k : nat) (l : list A) (g : rng) :
  (draw k l g).1 ⊆+ l ∧ length (draw k l g).1 = Nat.min k (length l).
Proof.
  revert l g. induction k as [|k IH]; intros l g; cbn [draw].
  - split; [apply submseteq_nil_l|done].
  - destruct (l !! (g 0%nat `mod` length l)%nat) as [x|] eqn:Hx.
    + pose proof (IH (delete (g 0%nat `mod` length l)%nat l) (λ n, g (S n)))
        as [Hsub Hlen].
      destruct (draw k _ _) as [xs g']. cbn [fst] in *.
      pose proof (delete_Permutation _ _ _ Hx) as Hperm. split.
      * rewrite Hperm. by apply submseteq_skip.
      * apply Permutation_length in Hperm as Hl. cbn [length] in Hl |- *. lia.
    + cbn [fst]. split; [apply submseteq_nil_l|].
      apply lookup_ge_None in Hx. destruct l as [|y l]; [done|].
      cbn [length] in Hx.
      pose proof (Nat.mod_upper_bound (g 0%nat) (S (length l))). lia.
Qed.

Lemma sample_Ok {A} (n : Z) (l : list A) (g g' : rng) xs :
  sample n l g = Ok (xs, g') →
  xs ⊆+ l ∧ Z.of_nat (length xs) = n ∧ 0 ≤ n ≤ Z.of_nat (length l).
Proof.
  unfold sample. intros Hs.
  destruct (decide (n < 0)); [done|].
  destruct (decide (Z.of_nat (length l) < n)); [done|].
  pose proof (draw_submseteq (Z.to_nat n) l g) as [Hsub Hlen].
  injection Hs as Hs. rewrite Hs in Hsub, Hlen. simpl in *.
  split; [done|]. lia.
Qed.

Lemma sample_in_range {A} (n : Z) (l : list A) (g : rng) :
  0 ≤ n ≤ Z.of_nat (length l) → ∃ xs g', sample n l g = Ok (xs, g').
Proof.
  intros Hn. unfold sample. rewrite !decide_False by lia.
  destruct (draw (Z.to_nat n) l g) as [xs g']. eauto.
Qed.

Lemma sample_out_of_range {A} (n : Z) (l : list A) (g : rng) :
  n < 0 ∨ Z.of_nat (length l) < n → sample n l g = Raise ValueError.
Proof.
  intros Hn. unfold sample. destruct (decide (n < 0)); [done|].
  by rewrite decide_True by lia.
Qed.

Lemma relevant_not_non_relevant r : non_relevant_bool r → ¬ relevant r.
Proof.
  unfold non_relevant_bool, relevant, fillna. intros [Hz _].
  destruct (Row.relevance r); simpl in *; lia.
Qed.

(** The item accessor with the "single_relevant" strategy, step by step. *)
Lemma getitem_single_relevant (dataset : IRDataset) (run_file : list RunRow)
    (config : RunDatasetConfig.t) (idx : Z) (g : rng) (query_id : string) :
  let self := RunDataset_init dataset run_file config in
  let group := group_rows self query_id in
  let pool := filter non_relevant_bool group in
  let k := Z.min (RunDatasetConfig.sample_size config - 1)
                 (Z.of_nat (length pool)) in
  RunDatasetConfig.sampling_strategy config = single_relevant →
  py_index (RunDataset.query_ids self) idx = Ok query_id →
  RunDataset_getitem self idx g
  = match py_getitem (RunDataset.queries self) query_id with
    | Raise e => Raise e
    | Ok query =>
        match sample 1 (filter relevant group) g with
        | Raise e => Raise e
        | Ok (rel, g1) =>
            match sample k pool g1 with
            | Raise e => Raise e
            | Ok (others, g2) =>
                match mapM_result (py_getitem (RunDataset.docs self))
                                  (Row.doc_id <$> rel ++ others) with
                | Raise e => Raise e
                | Ok docs =>
                    Ok (Sample.mk query_id query
                          (Row.doc_id <$> rel ++ others) docs
                          (loc_targets (RunDatasetConfig.targets config)
                             (rel ++ others) (Row.doc_id <$> rel ++ others))
                          None, g2)
                end
            end
        end
    end.
Proof.
  intros self group pool k Hstrategy Hidx.
  pose proof (get_group_query_ids dataset run_file config query_id
                (py_index_elem_of _ _ _ Hidx)) as [Hgroup _].
  fold self in Hgroup. fold group in Hgroup.
  unfold RunDataset_getitem, mbind, rand_bind, lift.
  rewrite Hidx, Hgroup.
  destruct (py_getitem (RunDataset.queries self) query_id) as [query|e];
    [|done].
  replace (RunDataset.config self) with config by done.
  rewrite Hstrategy. fold pool. fold k.
  destruct (sample 1 (filter relevant group) g) as [[rel g1]|e]; [|done].
  destruct (sample k pool g1) as [[others g2]|e]; [|done].
  cbn [mret rand_ret].
  by destruct (mapM_result _ _) as [docs|e].
Qed.

(** C4.  With the "single_relevant" strategy, every sample that the item
    accessor produces for a query has no relevance field and consists of
    one row of the query with relevance above 0 followed by rows drawn
    without replacement from the ranked rows of the query whose relevance
    is missing or 0; their number is the smaller of [sample_size - 1] and
    the size of that pool, so exactly one sampled row has relevance above
    0.  When no row of the query has relevance above 0 the accessor raises
    ([ValueError], if the query text can be looked up).  When there is such
    a row, the sample size is at least 1 and the texts of the query and of
    its rows can be looked up, the accessor does produce a sample. *)
Theorem single_relevant_sample (dataset : IRDataset) (run_file : list RunRow)
    (config : RunDatasetConfig.t) (idx : Z) (query_id : string) :
  let self := RunDataset_init dataset run_file config in
  let group := group_rows self query_id in
  let pool := filter non_relevant_bool group in
  let n := RunDatasetConfig.sample_size config in
  RunDatasetConfig.sampling_strategy config = single_relevant →
  py_index (RunDataset.query_ids self) idx = Ok query_id →
  (∀ g item g',
     RunDataset_getitem self idx g = Ok (item, g') →
     Sample.relevance item = None
     ∧ ∃ rel_row others,
         Sample.doc_ids item = Row.doc_id <$> rel_row :: others
         ∧ rel_row ∈ group ∧ relevant rel_row
         ∧ others ⊆+ pool
         ∧ length (filter relevant (rel_row :: others)) = 1%nat
         ∧ Z.of_nat (length others) = Z.min (n - 1) (Z.of_nat (length pool))
         ∧ Z.of_nat (length others) ≤ n - 1)
  ∧ (Forall (λ r, ¬ relevant r) group →
     ∀ g, ∃ e, RunDataset_getitem self idx g = Raise e
               ∧ (is_Some (RunDataset.queries self !! query_id) →
                  e = ValueError))
  ∧ (Exists relevant group → 1 ≤ n →
     is_Some (RunDataset.queries self !! query_id) →
     Forall (λ r, is_Some (RunDataset.docs self !! Row.doc_id r)) group →
     ∀ g, ∃ item g', RunDataset_getitem self idx g = Ok (item, g')).
Proof.
  intros self group pool n Hstrategy Hidx.
  pose proof (λ g, getitem_single_relevant dataset run_file config idx g
                     query_id Hstrategy Hidx) as Hitem.
  cbv zeta in Hitem. fold self group pool n in Hitem.
  split; [|split].
  - intros g item g' Hok. rewrite Hitem in Hok.
    destruct (py_getitem _ query_id) as [query|e]; [|done].
    destruct (sample 1 _ g) as [[rel g1]|e] eqn:Hrel; [|done].
    destruct (sample _ pool g1) as [[others g2]|e] eqn:Hothers; [|done].
    destruct (mapM_result _ _) as [docs|e]; [|done].
    injection Hok as <- <-. split; [done|].
    apply sample_Ok in Hrel as (Hsub & Hlen & _).
    apply sample_Ok in Hothers as (Hsub' & Hlen' & _).
    destruct rel as [|rel_row [|? ?]]; simpl in Hlen; try lia.
    assert (rel_row ∈ filter relevant group) as Hin.
    { eapply elem_of_submseteq; [|exact Hsub]. left. }
    apply list_elem_of_filter in Hin as [Hrelevant Hin].
    exists rel_row, others. repeat split; try done.
    + rewrite filter_cons, decide_True by done. simpl. f_equal.
      apply length_zero_iff_nil, filter_none. intros r Hr.
      apply relevant_not_non_relevant.
      eapply elem_of_submseteq in Hr; [|exact Hsub'].
      by apply list_elem_of_filter in Hr as [? _].
    + lia.
  - intros Hnone g. rewrite Hitem.
    destruct (py_getitem _ query_id) as [query|e] eqn:Hquery.
    + exists ValueError. split; [|done].
      rewrite sample_out_of_range; [done|]. right.
      rewrite filter_none; [simpl; lia|].
      intros r Hr. by eapply Forall_forall in Hnone.
    + exists e. split; [done|]. intros [query Hq].
      by rewrite (py_getitem_Some _ _ _ Hq) in Hquery.
  - intros Hrelevant Hn [query Hquery] Hdocs g. rewrite Hitem.
    rewrite (py_getitem_Some _ _ _ Hquery).
    destruct (sample_in_range 1 (filter relevant group) g)
      as (rel & g1 & Hrel).
    { apply Exists_exists in Hrelevant as (r & Hr & Hrelevant).
      assert (r ∈ filter relevant group) as Hin
        by (by apply list_elem_of_filter).
      destruct (filter relevant group); [by apply elem_of_nil in Hin|].
      simpl. lia. }
    rewrite Hrel.
    destruct (sample_in_range (Z.min (n - 1) (Z.of_nat (length pool))) pool g1)
      as (others & g2 & Hothers); [lia|].
    rewrite Hothers.
    apply sample_Ok in Hrel as (Hsub & _).
    apply sample_Ok in Hothers as (Hsub' & _).
    destruct (mapM_result_getitem (RunDataset.docs self)
                (Row.doc_id <$> rel ++ others)) as (docs & -> & _); [|eauto].
    apply Forall_fmap, Forall_app. rewrite Forall_forall in Hdocs.
    split; apply Forall_forall; intros r Hr; apply Hdocs.
    + eapply elem_of_submseteq in Hr; [|exact Hsub].
      by apply list_elem_of_filter in Hr as [_ ?].
    + eapply elem_of_submseteq in Hr; [|exact Hsub'].
      by apply list_elem_of_filter in Hr as [_ ?].
Qed.

(** In the fixture, [q1] (index 0) has two relevant documents and three
    ranked documents without positive relevance; [q2] has no relevant
    document. *)
Lemma single_relevant_sample_witness :
  (∃ sample g',
     RunDataset_getitem (Fixtures.run_dataset single_relevant 3 (-1)) 0
                        Fixtures.counting = Ok (sample, g')
     ∧ Sample.relevance sample = None
     ∧ length (Sample.doc_ids sample) = 3%nat)
  ∧ (∃ e, RunDataset_getitem (Fixtures.run_dataset single_relevant 3 (-1)) 1
                             Fixtures.counting = Raise e).
Proof.
  split.
  - destruct (single_relevant_sample Fixtures.ir_dataset Fixtures.run_file
                (RunDatasetConfig.mk relevance_field (-1) 3 single_relevant)
                0 "q1") as (Hshape & _ & Hsome); [reflexivity|reflexivity|].
    destruct (Hsome) with (g := Fixtures.counting) as (sample & g' & Hitem).
    + apply Exists_exists. eexists. split; [left|]. vm_compute. done.
    + simpl. lia.
    + by eexists.
    + repeat constructor; by eexists.
    + exists sample, g'. split; [exact Hitem|].
      destruct (Hshape _ _ _ Hitem)
        as (Hnone & rel_row & others & Hids & _ & _ & _ & _ & Hlen & _).
      split; [exact Hnone|]. rewrite Hids, length_fmap. cbn [length].
      match type of Hlen with
      | _ = ?k => let v := eval vm_compute in k in change k with v in Hlen
      end.
      lia.
  - destruct (single_relevant_sample Fixtures.ir_dataset Fixtures.run_file
                (RunDatasetConfig.mk relevance_field (-1) 3 single_relevant)
                1 "q2") as (_ & Hnone & _); [reflexivity|reflexivity|].
    destruct (Hnone) with (g := Fixtures.counting) as (e & Hraise & _).
    + vm_compute. repeat constructor; by intros ?.
    + by exists e.
Defined.

(** ** Runs from scores *)

(** *** Comparing floats *)

(** [x <= y] on floats. *)
Definition float_le (x y : pyfloat) : Prop :=
  float_compare x y = Some Lt ∨ float_compare x y = Some Eq.

Lemma Qcompare_cases (p q : Q) :
  ((p ?= q)%Q = Lt ∧ (p < q)%Q)
  ∨ ((p ?= q)%Q = Eq ∧ (p == q)%Q)
  ∨ ((p ?= q)%Q = Gt ∧ (q < p)%Q).
Proof.
  destruct (p ?= q)%Q eqn:Hc.
  - right. left. split; [done|]. by apply Qeq_alt.
  - left. split; [done|]. by apply Qlt_alt.
  - right. right. split; [done|]. by apply Qgt_alt.
Qed.

Lemma float_compare_None x y :
  float_compare x y = None ↔ is_nan x = true ∨ is_nan y = true.
Proof.
  destruct x, y; simpl; split; try done; auto; by intros [?|?].
Qed.

Lemma float_compare_antisym x y :
  float_compare y x = CompOpp <$> float_compare x y.
Proof.
  destruct x as [p| | |], y as [q| | |]; simpl; try done.
  f_equal. symmetry. apply Qcompare_antisym.
Qed.

Lemma float_compare_refl x : is_nan x = false → float_compare x x = Some Eq.
Proof.
  destruct x as [p| | |]; simpl; try done.
  intros _. f_equal. by apply (proj1 (Qeq_alt _ _)).
Qed.

Lemma float_compare_Eq_trans x y z :
  float_compare x y = Some Eq → float_compare y z = float_compare x z.
Proof.
  destruct x as [p| | |], y as [q| | |], z as [r| | |]; simpl; try done.
  intros [= Hpq%Qeq_alt]. f_equal.
  destruct (Qcompare_cases q r) as [[-> ?]|[[-> ?]|[-> ?]]]; symmetry.
  - apply (proj1 (Qlt_alt _ _)). lra.
  - apply (proj1 (Qeq_alt _ _)). lra.
  - apply (proj1 (Qgt_alt _ _)). lra.
Qed.

Lemma float_compare_Gt_trans x y z :
  float_compare x y = Some Gt →
  float_compare y z = Some Gt ∨ float_compare y z = Some Eq →
  float_compare x z = Some Gt.
Proof.
  destruct x as [p| | |], y as [q| | |], z as [r| | |]; simpl;
    intros H1 H2; try done; try (by destruct H2).
  injection H1 as Hpq%Qgt_alt.
  destruct H2 as [[= Hqr%Qgt_alt]|[= Hqr%Qeq_alt]];
    f_equal; apply (proj1 (Qgt_alt _ _)); lra.
Qed.

(** *** The order in which a group is ranked *)

Lemma ahead_iff r' r :
  ahead r' r
  ↔ float_compare (sr_score r') (sr_score r) = Some Gt
    ∨ (float_compare (sr_score r') (sr_score r) = Some Eq
       ∧ (sr_index r' < sr_index r)%nat).
Proof.
  unfold ahead.
  destruct (float_compare (sr_score r') (sr_score r)) as [[]|];
    (split; [intros ?; try done; auto|intros [?|[? ?]]; done]).
Qed.

Lemma ahead_not_nan r' r :
  ahead r' r → is_nan (sr_score r') = false ∧ is_nan (sr_score r) = false.
Proof.
  unfold ahead. destruct (sr_score r'), (sr_score r); simpl; done.
Qed.

Lemma ahead_irrefl r : ¬ ahead r r.
Proof.
  intros Ha. destruct (ahead_not_nan _ _ Ha) as [Hr _].
  apply ahead_iff in Ha. rewrite (float_compare_refl _ Hr) in Ha.
  destruct Ha as [?|[_ ?]]; [done|lia].
Qed.

Lemma ahead_trans r1 r2 r3 : ahead r1 r2 → ahead r2 r3 → ahead r1 r3.
Proof.
  rewrite !ahead_iff.
  intros [H12|[H12 I12]] [H23|[H23 I23]].
  - left. eapply float_compare_Gt_trans; eauto.
  - left. eapply float_compare_Gt_trans; eauto.
  - left. by rewrite <- (float_compare_Eq_trans _ _ _ H12).
  - right. split; [|lia]. by rewrite <- (float_compare_Eq_trans _ _ _ H12).
Qed.

Lemma ahead_total r1 r2 :
  is_nan (sr_score r1) = false → is_nan (sr_score r2) = false →
  sr_index r1 ≠ sr_index r2 → ahead r1 r2 ∨ ahead r2 r1.
Proof.
  intros Hr1 Hr2 Hne. rewrite !ahead_iff.
  rewrite (float_compare_antisym (sr_score r1) (sr_score r2)).
  destruct (float_compare (sr_score r1) (sr_score r2)) as [[]|] eqn:Hc; simpl.
  - destruct (decide (sr_index r1 < sr_index r2)%nat).
    + left. right. by split.
    + right. right. split; [done|lia].
  - right. by left.
  - left. by left.
  - apply float_compare_None in Hc as [?|?]; congruence.
Qed.

Lemma length_filter_strict {A} (P Q : A → Prop)
    `{∀ x, Decision (P x)} `{∀ x, Decision (Q x)} (l : list A) x :
  (∀ y, P y → Q y) → x ∈ l → Q x → ¬ P x →
  (length (filter P l) < length (filter Q l))%nat.
Proof.
  intros HPQ Hx HQx HPx.
  assert (∀ l' : list A, (length (filter P l') ≤ length (filter Q l'))%nat)
    as Hle.
  { induction l' as [|y l' IH]; [done|]. rewrite !filter_cons.
    destruct (decide (P y)) as [HPy|HPy].
    - rewrite decide_True by auto. simpl. lia.
    - destruct (decide (Q y)); simpl; lia. }
  induction Hx as [x l|x y l Hx IH]; rewrite !filter_cons.
  - rewrite decide_False, decide_True by done. simpl. pose proof (Hle l). lia.
  - specialize (IH HQx HPx). destruct (decide (P y)) as [HPy|HPy].
    + rewrite decide_True by auto. simpl. lia.
    + destruct (decide (Q y)); simpl; lia.
Qed.

(** The number a row gets when its score is a number. *)
Definition rank_number (frame : list ScoredRow) (r : ScoredRow) : Z :=
  1 + Z.of_nat
        (length (filter (λ r', sr_query_id r' = sr_query_id r ∧ ahead r' r)
                        frame)).

Lemma group_rank_number frame r :
  is_nan (sr_score r) = false → group_rank frame r = Some (rank_number frame r).
Proof. unfold group_rank. by intros ->. Qed.

Lemma group_rank_nan frame r :
  is_nan (sr_score r) = true → group_rank frame r = None.
Proof. unfold group_rank. by intros ->. Qed.

Lemma group_rank_None frame r :
  group_rank frame r = None ↔ sr_score r = NaN.
Proof. unfold group_rank. destruct (sr_score r); simpl; by split. Qed.

Lemma rank_number_pos frame r : 1 ≤ rank_number frame r.
Proof. unfold rank_number. lia. Qed.

(** A row ranked ahead of another row of its group has the smaller rank. *)
Lemma rank_number_lt frame r1 r2 :
  r1 ∈ frame → sr_query_id r1 = sr_query_id r2 → ahead r1 r2 →
  rank_number frame r1 < rank_number frame r2.
Proof.
  intros Hin Hq Hahead. unfold rank_number.
  assert (length (filter (λ r', sr_query_id r' = sr_query_id r1 ∧ ahead r' r1)
                         frame)
          < length (filter (λ r', sr_query_id r' = sr_query_id r2 ∧ ahead r' r2)
                           frame))%nat; [|lia].
  apply (length_filter_strict _ _ _ r1); [|done|done|].
  - intros r' [Hq' Ha']. split; [congruence|by eapply ahead_trans].
  - intros [_ Ha]. by apply ahead_irrefl in Ha.
Qed.

Lemma group_rank_lt frame r1 r2 :
  r1 ∈ frame → sr_query_id r1 = sr_query_id r2 → ahead r1 r2 →
  ∃ k1 k2, group_rank frame r1 = Some k1 ∧ group_rank frame r2 = Some k2
           ∧ 1 ≤ k1 < k2.
Proof.
  intros Hin Hq Hahead. destruct (ahead_not_nan _ _ Hahead) as [Hr1 Hr2].
  exists (rank_number frame r1), (rank_number frame r2).
  rewrite !group_rank_number by done.
  pose proof (rank_number_pos frame r1).
  pose proof (rank_number_lt frame r1 r2 Hin Hq Hahead). auto with lia.
Qed.

Lemma NoDup_fmap_inj_on {A B} (f : A → B) (l : list A) x y :
  NoDup (f <$> l) → x ∈ l → y ∈ l → f x = f y → x = y.
Proof.
  intros Hnd Hx Hy Hf.
  apply list_elem_of_lookup in Hx as [i Hi].
  apply list_elem_of_lookup in Hy as [j Hj].
  assert (i = j) as ->; [|congruence].
  eapply (NoDup_lookup _ _ _ (f x) Hnd).
  - by rewrite list_lookup_fmap, Hi.
  - by rewrite list_lookup_fmap, Hj, Hf.
Qed.

(** The rows of a group whose score is a number, and the others. *)
Definition numbered (rows : list ScoredRow) : list ScoredRow :=
  filter (λ r, is_nan (sr_score r) = false) rows.

Definition unnumbered (rows : list ScoredRow) : list ScoredRow :=
  filter (λ r, is_nan (sr_score r) = true) rows.

Lemma numbered_unnumbered rows : rows ≡ₚ numbered rows ++ unnumbered rows.
Proof.
  unfold numbered, unnumbered.
  induction rows as [|r rows IH]; [done|]. rewrite !filter_cons.
  destruct (is_nan (sr_score r)) eqn:Hr.
  - rewrite decide_False, decide_True by done.
    rewrite <- Permutation_middle. by constructor.
  - rewrite decide_True, decide_False by done. simpl. by constructor.
Qed.

(** The ranks of the numbered rows of a group are the numbers from 1 to
    their count, each once. *)
Lemma rank_numbers_Permutation frame q :
  NoDup (sr_index <$> frame) →
  let group := numbered (filter (λ r, sr_query_id r = q) frame) in
  rank_number frame <$> group ≡ₚ seqZ 1 (Z.of_nat (length group)).
Proof.
  intros Hnd group.
  assert (NoDup group) as Hgroup.
  { apply NoDup_filter, NoDup_filter. by eapply NoDup_fmap_1. }
  assert (∀ r, r ∈ group ↔
               r ∈ frame ∧ sr_query_id r = q ∧ is_nan (sr_score r) = false)
    as Hin.
  { intros r. subst group. unfold numbered.
    rewrite !list_elem_of_filter. tauto. }
  apply submseteq_length_Permutation.
  - apply NoDup_submseteq.
    + apply NoDup_fmap_2_strong; [|done].
      intros r1 r2 Hr1 Hr2 Hrank.
      destruct (proj1 (Hin _) Hr1) as (Hf1 & Hq1 & Hn1).
      destruct (proj1 (Hin _) Hr2) as (Hf2 & Hq2 & Hn2).
      destruct (decide (sr_index r1 = sr_index r2)) as [Heq|Hne].
      { by eapply NoDup_fmap_inj_on. }
      destruct (ahead_total r1 r2 Hn1 Hn2 Hne) as [Ha|Ha].
      * pose proof (rank_number_lt frame r1 r2 Hf1 ltac:(congruence) Ha). lia.
      * pose proof (rank_number_lt frame r2 r1 Hf2 ltac:(congruence) Ha). lia.
    + intros k Hk. apply list_elem_of_fmap in Hk as (r & -> & Hr).
      apply elem_of_seqZ. destruct (proj1 (Hin _) Hr) as (Hf & Hq & Hn).
      unfold rank_number.
      assert (filter (λ r', sr_query_id r' = sr_query_id r ∧ ahead r' r) frame
              = filter (λ r', ahead r' r) group) as ->.
      { subst group. unfold numbered. rewrite !list_filter_filter.
        apply list_filter_iff. intros r'.
        pose proof (ahead_not_nan r' r). intuition congruence. }
      pose proof (length_filter_lt (λ r', ahead r' r) group r Hr
                    (ahead_irrefl r)). lia.
  - by rewrite length_seqZ, length_fmap, Nat2Z.id.
Qed.

(** *** The frame *)

(** The [query_id] column: every query id once per document of the query. *)
Definition query_column (query_ids : list string) (doc_ids : list (list string))
    : list string :=
  mjoin (zip_with (λ q n, replicate n q) query_ids (length <$> doc_ids)).

(** The rows of the frame, one per flattened document. *)
Definition flat_rows (query_ids : list string) (doc_ids : list (list string))
    (scores : list pyfloat) : list ScoredRow :=
  imap (λ i '(q, d, s), mkScoredRow i q d s)
       (zip (zip (query_column query_ids doc_ids) (mjoin doc_ids)) scores).

Lemma length_query_column query_ids doc_ids :
  length doc_ids = length query_ids →
  length (query_column query_ids doc_ids) = length (mjoin doc_ids).
Proof.
  unfold query_column. revert doc_ids.
  induction query_ids as [|q query_ids IH]; intros [|ids doc_ids] Hlen;
    simplify_eq/=; [done|].
  rewrite !length_app, length_replicate. f_equal. by apply IH.
Qed.

Lemma elem_of_query_column query_ids doc_ids q :
  q ∈ query_column query_ids doc_ids → q ∈ query_ids.
Proof.
  unfold query_column. revert doc_ids.
  induction query_ids as [|q' query_ids IH]; intros [|ids doc_ids];
    simpl; try (by intros ?%elem_of_nil).
  rewrite elem_of_app. intros [Hq|Hq].
  - apply elem_of_replicate in Hq as [-> _]. left.
  - right. by eapply IH.
Qed.

Lemma filter_replicate_eq {A} `{EqDecision A} (n : nat) (x : A) :
  filter (eq x) (replicate n x) = replicate n x.
Proof.
  induction n as [|n IH]; [done|]. cbn [replicate].
  rewrite filter_cons, decide_True by done. by rewrite IH.
Qed.

(** With distinct query ids, the rows of the [k]-th query id are as many as
    the documents of the [k]-th tuple. *)
Lemma filter_query_column query_ids doc_ids k q ids :
  NoDup query_ids →
  query_ids !! k = Some q → doc_ids !! k = Some ids →
  filter (eq q) (query_column query_ids doc_ids) = replicate (length ids) q.
Proof.
  unfold query_column. revert doc_ids k.
  induction query_ids as [|q' query_ids IH]; intros [|ids' doc_ids] k Hnd Hq Hids;
    simplify_eq/=.
  apply NoDup_cons in Hnd as [Hq' Hnd]. rewrite filter_app.
  destruct k as [|k]; simplify_eq/=.
  - rewrite (filter_none (eq q) (mjoin _)), app_nil_r.
    + apply filter_replicate_eq.
    + intros y Hy <-. apply Hq'. by eapply elem_of_query_column.
  - rewrite (filter_none (eq q) (replicate _ _)); [by eapply IH|].
    intros y Hy Heq. apply elem_of_replicate_inv in Hy. subst y q'.
    apply Hq'. by eapply list_elem_of_lookup_2.
Qed.

Lemma flat_rows_lookup query_ids doc_ids scores i r :
  flat_rows query_ids doc_ids scores !! i = Some r →
  sr_index r = i
  ∧ query_column query_ids doc_ids !! i = Some (sr_query_id r)
  ∧ mjoin doc_ids !! i = Some (sr_doc_id r)
  ∧ scores !! i = Some (sr_score r).
Proof.
  unfold flat_rows. rewrite list_lookup_imap.
  destruct (zip _ scores !! i) as [[[q d] s]|] eqn:Hz; [|done].
  intros [= <-]. simpl.
  apply lookup_zip_with_Some in Hz as (qd & s' & ? & Hqd & Hs).
  apply lookup_zip_with_Some in Hqd as (q' & d' & ? & Hq & Hd).
  by simplify_eq.
Qed.

Lemma flat_rows_NoDup query_ids doc_ids scores :
  NoDup (sr_index <$> flat_rows query_ids doc_ids scores).
Proof.
  apply NoDup_alt. intros i j x Hi Hj.
  rewrite list_lookup_fmap in Hi, Hj.
  destruct (flat_rows _ _ _ !! i) as [ri|] eqn:Hri; [|done].
  destruct (flat_rows _ _ _ !! j) as [rj|] eqn:Hrj; [|done].
  apply flat_rows_lookup in Hri as [Hri _].
  apply flat_rows_lookup in Hrj as [Hrj _].
  simplify_eq/=. congruence.
Qed.

Lemma flat_rows_query_ids query_ids doc_ids scores :
  length doc_ids = length query_ids →
  length scores = length (mjoin doc_ids) →
  sr_query_id <$> flat_rows query_ids doc_ids scores
  = query_column query_ids doc_ids.
Proof.
  intros Hlen Hscores. apply list_eq. intros i.
  rewrite list_lookup_fmap.
  destruct (flat_rows _ _ _ !! i) as [r|] eqn:Hr; simpl.
  - by apply flat_rows_lookup in Hr as (_ & -> & _).
  - symmetry. apply lookup_ge_None. apply lookup_ge_None in Hr.
    unfold flat_rows in Hr.
    rewrite length_imap, !length_zip_with in Hr.
    rewrite length_query_column in * by done. lia.
Qed.

Lemma length_filter_fmap {A B} (f : A → B) (P : B → Prop)
    `{∀ y, Decision (P y)} (l : list A) :
  length (filter (λ x, P (f x)) l) = length (filter P (f <$> l)).
Proof.
  induction l as [|x l IH]; [done|].
  rewrite fmap_cons, !filter_cons. destruct (decide (P (f x))); simpl; lia.
Qed.

Lemma create_run_from_scores_frame query_ids doc_ids scores :
  length doc_ids = length query_ids →
  length scores = length (mjoin doc_ids) →
  let frame := flat_rows query_ids doc_ids scores in
  create_run_from_scores query_ids doc_ids scores
  = Ok (stable_sort (run_leb (key_dict query_ids))
          ((λ r, Run.mk (sr_index r) (sr_query_id r) 0 (sr_doc_id r)
                        (sr_score r) lightning_ir_system (group_rank frame r))
             <$> frame)).
Proof.
  intros Hlen Hscores frame. unfold create_run_from_scores, np_repeat.
  rewrite decide_True by (by rewrite length_fmap).
  fold (query_column query_ids doc_ids). cbn [mbind result_bind].
  unfold make_frame. rewrite decide_True; [done|].
  by rewrite length_query_column.
Qed.

Lemma filter_fmap_comm {A B} (f : A → B) (P : B → Prop)
    `{∀ y, Decision (P y)} (l : list A) :
  filter P (f <$> l) = f <$> filter (λ x, P (f x)) l.
Proof.
  induction l as [|x l IH]; [done|].
  rewrite fmap_cons, !filter_cons.
  destruct (decide (P (f x))); by rewrite ?fmap_cons, IH.
Qed.

(** *** The sort key *)

Lemma key_dict_fold_fresh (l : list string) (d : gmap string nat) off q :
  q ∉ l →
  foldl (λ d iq, <[iq.2 := iq.1]> d) d (imap (λ i x, (off + i, x)%nat) l) !! q
  = d !! q.
Proof.
  revert d off. induction l as [|x l IH]; intros d off Hq; [done|].
  apply not_elem_of_cons in Hq as [Hne Hq].
  rewrite imap_cons. cbn [foldl].
  rewrite (imap_ext _ (λ i x, (S off + i, x)%nat))
    by (intros; simpl; f_equal; lia).
  rewrite IH by done. cbn [fst snd]. by rewrite lookup_insert_ne.
Qed.

Lemma key_dict_fold_lookup (l : list string) (d : gmap string nat) off k q :
  NoDup l → l !! k = Some q →
  foldl (λ d iq, <[iq.2 := iq.1]> d) d (imap (λ i x, (off + i, x)%nat) l) !! q
  = Some (off + k)%nat.
Proof.
  revert d off k. induction l as [|x l IH]; intros d off k Hnd Hk; [done|].
  apply NoDup_cons in Hnd as [Hx Hnd].
  rewrite imap_cons. cbn [foldl].
  rewrite (imap_ext _ (λ i x, (S off + i, x)%nat))
    by (intros; simpl; f_equal; lia).
  destruct k as [|k]; cbn [lookup list_lookup] in Hk.
  - injection Hk as ->. rewrite key_dict_fold_fresh by done.
    cbn [fst snd]. rewrite lookup_insert_eq. f_equal; lia.
  - rewrite (IH _ _ k) by done. f_equal; lia.
Qed.

(** With distinct query ids the key of a query id is its position. *)
Lemma key_dict_lookup query_ids k q :
  NoDup query_ids → query_ids !! k = Some q →
  key_dict query_ids !! q = Some k.
Proof.
  intros Hnd Hk. unfold key_dict.
  rewrite (imap_ext _ (λ i x, (0 + i, x)%nat)) by done.
  by rewrite (key_dict_fold_lookup _ _ _ k).
Qed.

Lemma nat_opt_compare_antisym a b :
  nat_opt_compare b a = CompOpp (nat_opt_compare a b).
Proof. destruct a, b; simpl; try done. apply Nat.compare_antisym. Qed.

Lemma run_leb_total d r1 r2 :
  run_leb d r1 r2 = true ∨ run_leb d r2 r1 = true.
Proof.
  unfold run_leb.
  rewrite (nat_opt_compare_antisym (d !! Run.query_id r1)).
  destruct (nat_opt_compare _ _); simpl; auto. apply nan_last_leb_total.
Qed.

Lemma nat_opt_compare_Eq a b : nat_opt_compare a b = Eq → a = b.
Proof.
  destruct a, b; simpl; try done. by intros ->%Nat.compare_eq.
Qed.

Lemma nat_opt_compare_Lt_trans a b c :
  nat_opt_compare a b = Lt → nat_opt_compare b c = Lt →
  nat_opt_compare a c = Lt.
Proof.
  destruct a, b, c; simpl; try done.
  rewrite !Nat.compare_lt_iff. lia.
Qed.

Lemma run_leb_trans d r1 r2 r3 :
  run_leb d r1 r2 = true → run_leb d r2 r3 = true → run_leb d r1 r3 = true.
Proof.
  unfold run_leb.
  destruct (nat_opt_compare (d !! Run.query_id r1) (d !! Run.query_id r2))
    eqn:H12; [| |done].
  - apply nat_opt_compare_Eq in H12 as ->.
    destruct (nat_opt_compare _ _); [|done|done]. apply nan_last_leb_trans.
  - intros _.
    destruct (nat_opt_compare (d !! Run.query_id r2) (d !! Run.query_id r3))
      eqn:H23; [| |done].
    + apply nat_opt_compare_Eq in H23 as <-. by rewrite H12.
    + by rewrite (nat_opt_compare_Lt_trans _ _ _ H12 H23).
Qed.

(** *** The run table *)

(** Row [r1] may stand before row [r2]: its query comes earlier in the given
    order, or it is the same query and the rank is not larger, a missing
    rank counting as the largest. *)
Definition run_order (query_ids : list string) : relation Run.t := λ r1 r2,
  ∃ k1 k2 : nat,
    query_ids !! k1 = Some (Run.query_id r1)
    ∧ query_ids !! k2 = Some (Run.query_id r2)
    ∧ ((k1 < k2)%nat
       ∨ (k1 = k2 ∧ nan_last_leb (Run.rank r1) (Run.rank r2) = true)).

(** The rank column of the rows of query [q] in a run. *)
Definition ranks_of (q : string) (run : list Run.t) : list (option Z) :=
  Run.rank <$> filter (λ r, Run.query_id r = q) run.

(** The number of rows of query [q] whose score is not-a-number. *)
Definition nan_scores_of (q : string) (run : list Run.t) : nat :=
  length (filter (λ r, Run.query_id r = q ∧ is_nan (Run.score r) = true) run).

(** The rank column of a group of [n] rows of which [nan] have a score that
    is not-a-number: the numbers from 1 to [n - nan], and [nan] missing
    ranks. *)
Definition rank_column (n nan : nat) : list (option Z) :=
  (Some <$> seqZ 1 (Z.of_nat (n - nan))) ++ replicate nan None.

(** What C10 says of the run made from [query_ids], [doc_ids] and [scores],
    with the scores that are not-a-number set apart: the rows of the run are
    the flattened documents with their query ids and scores; a row has no
    rank exactly when its score is not-a-number; the ranks of the rows of
    the [k]-th query are the numbers from 1 to the number of its documents
    whose score is a number, so from 1 to the length of the [k]-th document
    tuple when all its scores are numbers; within a query a higher score has
    the smaller rank and, among equal scores, the earlier row has the
    smaller rank; the rows are in query order, then in rank order with the
    missing ranks last. *)
Definition ranked_run (query_ids : list string) (doc_ids : list (list string))
    (scores : list pyfloat) (run : list Run.t) : Prop :=
  (λ r, mkScoredRow (Run.index r) (Run.query_id r) (Run.doc_id r) (Run.score r))
    <$> run ≡ₚ flat_rows query_ids doc_ids scores
  ∧ (∀ r, r ∈ run → Run.rank r = None ↔ Run.score r = NaN)
  ∧ (∀ k q ids, query_ids !! k = Some q → doc_ids !! k = Some ids →
       (nan_scores_of q run ≤ length ids)%nat
       ∧ ranks_of q run ≡ₚ rank_column (length ids) (nan_scores_of q run))
  ∧ (Forall (λ s, is_nan s = false) scores →
     ∀ k q ids, query_ids !! k = Some q → doc_ids !! k = Some ids →
       ranks_of q run ≡ₚ Some <$> seqZ 1 (Z.of_nat (length ids)))
  ∧ (∀ r1 r2, r1 ∈ run → r2 ∈ run → Run.query_id r1 = Run.query_id r2 →
       float_compare (Run.score r1) (Run.score r2) = Some Gt →
       ∃ k1 k2, Run.rank r1 = Some k1 ∧ Run.rank r2 = Some k2 ∧ k1 < k2)
  ∧ (∀ r1 r2, r1 ∈ run → r2 ∈ run → Run.query_id r1 = Run.query_id r2 →
       float_compare (Run.score r1) (Run.score r2) = Some Eq →
       (Run.index r1 < Run.index r2)%nat →
       ∃ k1 k2, Run.rank r1 = Some k1 ∧ Run.rank r2 = Some k2 ∧ k1 < k2)
  ∧ StronglySorted (run_order query_ids) run.

(** The rank column of the group of [q] in a frame, whatever the query ids
    are. *)
Lemma group_ranks_Permutation frame q :
  NoDup (sr_index <$> frame) →
  let group := filter (λ r, sr_query_id r = q) frame in
  group_rank frame <$> group
  ≡ₚ rank_column (length group) (length (unnumbered group)).
Proof.
  intros Hnd group. unfold rank_column.
  pose proof (numbered_unnumbered group) as Hsplit.
  assert (length group - length (unnumbered group)
          = length (numbered group))%nat as ->.
  { apply Permutation_length in Hsplit. rewrite length_app in Hsplit. lia. }
  rewrite Hsplit at 1. rewrite fmap_app. apply Permutation_app.
  - pose proof (rank_numbers_Permutation frame q Hnd) as Hperm.
    cbv zeta in Hperm. fold group in Hperm. rewrite <- Hperm.
    rewrite <- list_fmap_compose.
    assert (group_rank frame <$> numbered group
            = (Some ∘ rank_number frame) <$> numbered group) as ->; [|done].
    apply list_fmap_ext. intros i r Hr.
    apply list_elem_of_lookup_2, list_elem_of_filter in Hr as [Hr _].
    by apply group_rank_number.
  - assert (∀ rows, Forall (λ r, is_nan (sr_score r) = true) rows →
                    group_rank frame <$> rows = replicate (length rows) None)
      as Hnone.
    { induction 1 as [|r rows Hr _ IH]; [done|].
      rewrite fmap_cons, IH, (group_rank_nan _ _ Hr). done. }
    rewrite Hnone; [done|]. apply Forall_forall.
    intros r Hr. by apply list_elem_of_filter in Hr as [? _].
Qed.

(** The run as the sorted frame with its ranks attached. *)
Definition attach_rank (frame : list ScoredRow) (r : ScoredRow) : Run.t :=
  Run.mk (sr_index r) (sr_query_id r) 0 (sr_doc_id r) (sr_score r)
         lightning_ir_system (group_rank frame r).

Lemma ranks_of_sorted leb frame q :
  ranks_of q (stable_sort leb (attach_rank frame <$> frame))
  ≡ₚ group_rank frame <$> filter (λ r, sr_query_id r = q) frame.
Proof.
  unfold ranks_of. rewrite stable_sort_Permutation.
  by rewrite filter_fmap_comm, <- list_fmap_compose.
Qed.

Lemma nan_scores_of_sorted leb frame q :
  nan_scores_of q (stable_sort leb (attach_rank frame <$> frame))
  = length (unnumbered (filter (λ r, sr_query_id r = q) frame)).
Proof.
  unfold nan_scores_of, unnumbered.
  rewrite stable_sort_Permutation, filter_fmap_comm, length_fmap.
  rewrite list_filter_filter. f_equal. apply list_filter_iff.
  intros r. simpl. tauto.
Qed.

(** C10, as amended.  For pairwise distinct query ids, one document tuple
    per query id and one score per flattened document,
    [create_run_from_scores] returns a run table with the properties of
    [ranked_run]: the scores that are numbers are ranked from 1 on within
    their query, a score that is not-a-number leaves the rank missing. *)
Theorem create_run_from_scores_ranked (query_ids : list string)
    (doc_ids : list (list string)) (scores : list pyfloat) :
  NoDup query_ids →
  length doc_ids = length query_ids →
  length scores = length (mjoin doc_ids) →
  ∃ run,
    create_run_from_scores query_ids doc_ids scores = Ok run
    ∧ ranked_run query_ids doc_ids scores run.
Proof.
  intros Hnd Hlen Hscores.
  rewrite create_run_from_scores_frame by done. cbv zeta.
  set (frame := flat_rows query_ids doc_ids scores).
  fold (attach_rank frame).
  set (run := stable_sort (run_leb (key_dict query_ids))
                          (attach_rank frame <$> frame)).
  exists run. split; [done|].
  assert (∀ r, r ∈ run → ∃ s, s ∈ frame ∧ r = attach_rank frame s) as Hrun.
  { intros r Hr. apply elem_of_stable_sort, list_elem_of_fmap in Hr.
    destruct Hr as (s & -> & Hs). eauto. }
  assert (∀ s, s ∈ frame →
            ∃ k, query_ids !! k = Some (sr_query_id s)) as Hpos.
  { intros s Hs. apply list_elem_of_lookup.
    apply (elem_of_query_column _ doc_ids).
    rewrite <- (flat_rows_query_ids _ _ scores) by done.
    by apply list_elem_of_fmap_2. }
  assert (∀ k q ids, query_ids !! k = Some q → doc_ids !! k = Some ids →
            length (filter (λ r, sr_query_id r = q) frame) = length ids)
    as Hgroup.
  { intros k q ids Hq Hids.
    etrans; [exact (length_filter_fmap sr_query_id (λ y, y = q) frame)|].
    subst frame. rewrite flat_rows_query_ids by done.
    rewrite (list_filter_iff _ (eq q)) by (intros; split; congruence).
    by rewrite (filter_query_column _ _ k q ids), length_replicate. }
  assert (∀ k q ids, query_ids !! k = Some q → doc_ids !! k = Some ids →
            ranks_of q run
            ≡ₚ rank_column (length ids) (nan_scores_of q run)) as Hranks.
  { intros k q ids Hq Hids. subst run.
    rewrite ranks_of_sorted, nan_scores_of_sorted.
    rewrite <- (Hgroup k q ids Hq Hids).
    apply group_ranks_Permutation, flat_rows_NoDup. }
  split; [|split; [|split; [|split; [|split; [|split]]]]].
  - subst run. rewrite stable_sort_Permutation, <- list_fmap_compose.
    match goal with |- ?l ≡ₚ _ => assert (l = frame) as ->; [|done] end.
    apply list_eq. intros i. rewrite list_lookup_fmap.
    by destruct (frame !! i) as [[]|].
  - intros r Hr. destruct (Hrun _ Hr) as (s & _ & ->).
    apply group_rank_None.
  - intros k q ids Hq Hids. split; [|by eapply Hranks].
    subst run. rewrite nan_scores_of_sorted, <- (Hgroup k q ids Hq Hids).
    apply length_filter.
  - intros Hnum k q ids Hq Hids.
    rewrite (Hranks k q ids Hq Hids).
    assert (nan_scores_of q run = 0%nat) as ->.
    { subst run. rewrite nan_scores_of_sorted. unfold unnumbered.
      rewrite filter_none; [done|].
      intros r [_ Hr]%list_elem_of_filter Hnan.
      apply list_elem_of_lookup in Hr as [i Hr].
      apply flat_rows_lookup in Hr as (_ & _ & _ & Hs).
      apply list_elem_of_lookup_2 in Hs.
      rewrite Forall_forall in Hnum. specialize (Hnum _ Hs). congruence. }
    unfold rank_column. by rewrite Nat.sub_0_r, app_nil_r.
  - intros r1 r2 Hr1 Hr2 Hq Hgt.
    destruct (Hrun _ Hr1) as (s1 & Hs1 & ->), (Hrun _ Hr2) as (s2 & Hs2 & ->).
    simpl in *.
    destruct (group_rank_lt frame s1 s2 Hs1 Hq) as (k1 & k2 & ? & ? & ?).
    { apply ahead_iff. by left. }
    exists k1, k2. auto with lia.
  - intros r1 r2 Hr1 Hr2 Hq Heq Hidx.
    destruct (Hrun _ Hr1) as (s1 & Hs1 & ->), (Hrun _ Hr2) as (s2 & Hs2 & ->).
    simpl in *.
    destruct (group_rank_lt frame s1 s2 Hs1 Hq) as (k1 & k2 & ? & ? & ?).
    { apply ahead_iff. by right. }
    exists k1, k2. auto with lia.
  - apply (StronglySorted_impl
             (λ r1 r2, run_leb (key_dict query_ids) r1 r2 = true) _
             (λ r, r ∈ run)).
    + intros r1 r2 Hr1 Hr2 Hle.
      destruct (Hrun _ Hr1) as (s1 & Hs1 & ->), (Hrun _ Hr2) as (s2 & Hs2 & ->).
      destruct (Hpos _ Hs1) as [k1 Hk1], (Hpos _ Hs2) as [k2 Hk2].
      exists k1, k2. split; [done|]. split; [done|].
      unfold run_leb in Hle. cbn [Run.query_id attach_rank] in Hle.
      rewrite (key_dict_lookup _ _ _ Hnd Hk1),
        (key_dict_lookup _ _ _ Hnd Hk2) in Hle.
      cbn [nat_opt_compare] in Hle.
      destruct (Nat.compare_spec k1 k2); [right|left|done]; done.
    + by apply Forall_forall.
    + apply stable_sort_StronglySorted.
      * apply run_leb_total.
      * apply run_leb_trans.
Qed.

(** Two queries with three and two documents.  The second and third
    document of the first query have the same score; of the second query one
    score is infinite and one is not-a-number. *)
Lemma create_run_from_scores_witness :
  ∃ run,
    create_run_from_scores ["q1"; "q2"] [["a"; "b"; "c"]; ["d"; "e"]]
                           [Finite 1; Finite 2; Finite 2; NaN; NegInf] = Ok run
    ∧ ranked_run ["q1"; "q2"] [["a"; "b"; "c"]; ["d"; "e"]]
                 [Finite 1; Finite 2; Finite 2; NaN; NegInf] run
    ∧ Run.doc_id <$> run = ["b"; "c"; "a"; "e"; "d"]
    ∧ Run.rank <$> run = [Some 1; Some 2; Some 3; Some 1; None].
Proof.
  destruct (create_run_from_scores_ranked
              ["q1"; "q2"] [["a"; "b"; "c"]; ["d"; "e"]]
              [Finite 1; Finite 2; Finite 2; NaN; NegInf])
    as (run & Hrun & Hranked).
  - apply NoDup_ListNoDup. repeat constructor; simpl; intuition discriminate.
  - reflexivity.
  - reflexivity.
  - exists run. split; [exact Hrun|]. split; [exact Hranked|].
    vm_compute in Hrun. by simplify_eq.
Defined.

(** C10 as stated fails in two ways.  When a query id is given twice: for
    the query ids [q1, q2, q1], one document each and the scores 1, 2, 3,
    the rows come out as [q2, q1, q1] with ranks 1, 1, 2: the first query
    has one document, but the rows of its id carry the ranks 1 and 2, and
    the row of the second query stands before the row of the first.  When a
    score is not-a-number: for one query with three documents and the
    scores 1, not-a-number, 3 the rank column is 1, 2 and a missing rank,
    not a permutation of 1, 2, 3. *)
Lemma create_run_from_scores_duplicate_counterexample :
  (∃ run,
     create_run_from_scores ["q1"; "q2"; "q1"] [["a"]; ["b"]; ["c"]]
                            [Finite 1; Finite 2; Finite 3] = Ok run
     ∧ Run.query_id <$> run = ["q2"; "q1"; "q1"]
     ∧ Run.doc_id <$> run = ["b"; "c"; "a"]
     ∧ Run.rank <$> run = [Some 1; Some 1; Some 2]
     ∧ ranks_of "q1" run = [Some 1; Some 2]
     ∧ ¬ ranked_run ["q1"; "q2"; "q1"] [["a"]; ["b"]; ["c"]]
                    [Finite 1; Finite 2; Finite 3] run)
  ∧ (∃ run,
       create_run_from_scores ["q1"] [["a"; "b"; "c"]]
                              [Finite 1; NaN; Finite 3] = Ok run
       ∧ Run.doc_id <$> run = ["c"; "a"; "b"]
       ∧ Run.rank <$> run = [Some 1; Some 2; None]
       ∧ ¬ ranks_of "q1" run ≡ₚ Some <$> seqZ 1 3).
Proof.
  split.
  - eexists. split; [vm_compute; reflexivity|].
    repeat split; try reflexivity.
    intros (_ & _ & Hranks & _).
    destruct (Hranks 0%nat "q1" ["a"] eq_refl eq_refl) as [_ Hperm].
    apply Permutation_length in Hperm. vm_compute in Hperm. discriminate.
  - eexists. split; [vm_compute; reflexivity|].
    repeat split; try reflexivity.
    intros Hperm.
    assert (None ∈ Some <$> seqZ 1 3) as Hnone.
    { rewrite <- Hperm. vm_compute. do 2 right. left. }
    apply list_elem_of_fmap in Hnone as (? & ? & _). discriminate.
Qed.


(** * Further properties *)

#[local] Set Warnings "-clear-no-such-hyp".

(** ** The supervision stream *)

Lemma parse_line_Ok float line p :
  KDDocPairs.parse_line float line = Ok p
  ↔ ∃ pos neg,
      py_split (py_rstrip line)
        = [pos; neg; sdp_query_id p; sdp_doc_id_a p; sdp_doc_id_b p]
      ∧ float pos = Some (sdp_score_a p)
      ∧ float neg = Some (sdp_score_b p).
Proof.
  unfold KDDocPairs.parse_line. split.
  - destruct (py_split (py_rstrip line))
      as [|c0 [|c1 [|c2 [|c3 [|c4 [|c5 cs]]]]]]; try done.
    destruct (float c0) as [pos|] eqn:Hpos; [|done].
    destruct (float c1) as [neg|] eqn:Hneg; [|done].
    intros [= <-]. by exists c0, c1.
  - intros (pos & neg & -> & -> & ->). by destruct p.
Qed.

Lemma parse_line_Raise float line e :
  KDDocPairs.parse_line float line = Raise e → e = ValueError.
Proof.
  unfold KDDocPairs.parse_line.
  destruct (py_split (py_rstrip line))
    as [|c0 [|c1 [|c2 [|c3 [|c4 [|c5 cs]]]]]]; try by intros [= <-].
  destruct (float c0), (float c1); by intros [= <-].
Qed.

(** X1.  [KDDocPairs.docpairs_iter] yields one record for every line before
    the first malformed one, in line order, and then raises [ValueError] at
    that line; without a malformed line it yields a record for every line
    and finishes.  A line is well formed when [line.rstrip().split()] has
    exactly five columns and [float()] accepts the first two, whatever
    float it returns, not-a-number and the infinities included; the record
    takes its scores from columns 0 and 1 and its query and document ids
    from columns 2, 3, 4. *)
Theorem docpairs_iter_until_malformed (float : string → option pyfloat)
    (lines : list string) :
  let stream := KDDocPairs.docpairs_iter float lines in
  let n := length (yielded stream) in
  Forall2 (λ line p,
             ∃ pos neg,
               py_split (py_rstrip line)
                 = [pos; neg; sdp_query_id p; sdp_doc_id_a p; sdp_doc_id_b p]
               ∧ float pos = Some (sdp_score_a p)
               ∧ float neg = Some (sdp_score_b p))
          (take n lines) (yielded stream)
  ∧ match outcome stream with
    | None => n = length lines
    | Some e =>
        e = ValueError
        ∧ ∃ line, lines !! n = Some line
                  ∧ KDDocPairs.parse_line float line = Raise ValueError
    end.
Proof.
  induction lines as [|line lines IH]; cbn [KDDocPairs.docpairs_iter].
  - by split; [constructor|].
  - destruct (KDDocPairs.parse_line float line) as [p|e] eqn:Hline.
    + cbv zeta in IH. destruct IH as [IH1 IH2]. cbn. split.
      * constructor; [by apply parse_line_Ok|done].
      * destruct (outcome _); [done|]. by f_equal.
    + pose proof (parse_line_Raise _ _ _ Hline) as ->. cbn.
      split; [constructor|]. split; [done|]. by exists line.
Qed.

(** ** The triples dataset, continued *)

(** What a yielded sample holds: the ids of the record, the stored texts of
    the query and of both documents, and each score of the record or, where
    the record has none, its own default. *)
Definition triple_content (self : TriplesDataset.t) (doc : DocPair)
    (s : Sample.t) : Prop :=
  ∃ query doc_a doc_b,
    TriplesDataset.queries self !! dp_query_id doc = Some query
    ∧ TriplesDataset.docs self !! dp_doc_id_a doc = Some doc_a
    ∧ TriplesDataset.docs self !! dp_doc_id_b doc = Some doc_b
    ∧ s = Sample.mk (dp_query_id doc) query
                    [dp_doc_id_a doc; dp_doc_id_b doc] [doc_a; doc_b]
                    [default (Finite 1) (dp_score_a doc);
                     default (Finite 0) (dp_score_b doc)]
                    None.

Lemma triple_sample_cases self doc :
  match triple_sample self doc with
  | Ok s => triple_content self doc s
  | Raise e => e = KeyError ∧ ¬ resolvable self doc
  end.
Proof.
  unfold triple_sample, resolvable.
  destruct (TriplesDataset.docs self !! dp_doc_id_a doc) as [da|] eqn:Ha.
  2:{ rewrite (py_getitem_None _ _ Ha). split; [done|].
      by intros ([? ?] & _). }
  destruct (TriplesDataset.docs self !! dp_doc_id_b doc) as [db|] eqn:Hb.
  2:{ rewrite (py_getitem_Some _ _ _ Ha), (py_getitem_None _ _ Hb).
      split; [done|]. by intros (_ & [? ?] & _). }
  destruct (TriplesDataset.queries self !! dp_query_id doc) as [q|] eqn:Hq.
  2:{ rewrite (py_getitem_Some _ _ _ Ha), (py_getitem_Some _ _ _ Hb),
        (py_getitem_None _ _ Hq).
      split; [done|]. by intros (_ & _ & [? ?]). }
  rewrite (py_getitem_Some _ _ _ Ha), (py_getitem_Some _ _ _ Hb),
    (py_getitem_Some _ _ _ Hq).
  exists q, da, db. by repeat split.
Qed.

(** X2.  [TriplesDataset.__iter__] yields a sample for every record before
    the first one whose query or documents cannot be looked up, in stream
    order, and raises [KeyError] at that record; no record is skipped.  When
    all records resolve it ends as the record stream ends.  Every sample
    holds the stored texts of its query and of its two documents in order,
    and a missing score is replaced on its own: [score_a] by 1, [score_b] by
    0. *)
Theorem triples_iter_until_unresolvable (self : TriplesDataset.t) :
  let records := yielded (TriplesDataset.docpairs self) in
  let stream := TriplesDataset_iter self in
  let n := length (yielded stream) in
  Forall2 (triple_content self) (take n records) (yielded stream)
  ∧ (n = length records
     ∧ outcome stream = outcome (TriplesDataset.docpairs self)
     ∨ ∃ doc, records !! n = Some doc ∧ ¬ resolvable self doc
              ∧ outcome stream = Some KeyError).
Proof.
  unfold TriplesDataset_iter.
  induction (TriplesDataset.docpairs self) as [|doc rest IH|e];
    cbn [iter_docpairs yielded].
  - split; [constructor|]. by left.
  - pose proof (triple_sample_cases self doc) as Hcases.
    destruct (triple_sample self doc) as [s|e].
    + cbv zeta in IH. destruct IH as [IH1 IH2]. cbn. split; [by constructor|].
      destruct IH2 as [[Hn Hout]|(bad & Hbad & Hres & Hout)].
      * left. by rewrite Hn.
      * right. by exists bad.
    + destruct Hcases as [-> Hres]. cbn. split; [constructor|].
      right. by exists doc.
  - split; [constructor|]. by left.
Qed.

Lemma docpairs_iter_yielded float lines :
  let records := yielded (KDDocPairs.docpairs_iter float lines) in
  Forall2 (λ line p, KDDocPairs.parse_line float line = Ok p)
          (take (length records) lines) records.
Proof.
  induction lines as [|line lines IH]; cbn [KDDocPairs.docpairs_iter];
    [constructor|].
  destruct (KDDocPairs.parse_line float line) as [p|e] eqn:Hline;
    [|constructor].
  cbn. by constructor.
Qed.

Lemma iter_docpairs_yielded self (pairs : gen DocPair) :
  let samples := yielded (iter_docpairs self pairs) in
  Forall2 (λ doc s, triple_sample self doc = Ok s)
          (take (length samples) (yielded pairs)) samples.
Proof.
  induction pairs as [|doc rest IH|e]; cbn [iter_docpairs yielded];
    [constructor| |constructor].
  destruct (triple_sample self doc) as [s|e] eqn:Hdoc; [|constructor].
  cbn. by constructor.
Qed.

Lemma yielded_gen_map {A B} (f : A → B) (g : gen A) :
  yielded (gen_map f g) = f <$> yielded g.
Proof. induction g as [|a rest IH|e]; simpl; by rewrite ?IH. Qed.

(** X3.  When the doc pairs of a triples dataset are the records of
    [KDDocPairs.docpairs_iter], every yielded sample carries the two scores
    parsed from columns 0 and 1 of its line as targets, never the defaults,
    and the ids of columns 2, 3 and 4. *)
Theorem kd_triples_keep_scores (float : string → option pyfloat)
    (lines : list string) (self : TriplesDataset.t) :
  TriplesDataset.docpairs self
    = gen_map of_ScoredDocPair (KDDocPairs.docpairs_iter float lines) →
  let samples := yielded (TriplesDataset_iter self) in
  Forall2 (λ line s,
             ∃ pos neg score_a score_b qid pid1 pid2,
               py_split (py_rstrip line) = [pos; neg; qid; pid1; pid2]
               ∧ float pos = Some score_a ∧ float neg = Some score_b
               ∧ Sample.query_id s = qid
               ∧ Sample.doc_ids s = [pid1; pid2]
               ∧ Sample.targets s = [score_a; score_b])
          (take (length samples) lines) samples.
Proof.
  intros Hpairs samples.
  pose proof (iter_docpairs_yielded self (TriplesDataset.docpairs self))
    as Hcontent.
  cbv zeta in Hcontent. fold (TriplesDataset_iter self) in Hcontent.
  fold samples in Hcontent.
  rewrite Hpairs, yielded_gen_map in Hcontent.
  pose proof (docpairs_iter_yielded float lines) as Hlines.
  cbv zeta in Hlines.
  set (records := yielded (KDDocPairs.docpairs_iter float lines)) in *.
  assert (length samples ≤ length records)%nat as Hle.
  { apply Forall2_length in Hcontent.
    rewrite length_take, length_fmap in Hcontent. lia. }
  apply (Forall2_take _ _ _ (length samples)) in Hlines.
  rewrite take_take, Nat.min_l in Hlines by done.
  rewrite <- fmap_take, Forall2_fmap_l in Hcontent.
  eapply Forall2_trans; [|exact Hlines|exact Hcontent].
  intros line p s Hline Hsample. cbn in Hsample.
  apply parse_line_Ok in Hline as (pos & neg & Hwords & Hpos & Hneg).
  pose proof (triple_sample_cases self (of_ScoredDocPair p)) as Hcases.
  rewrite Hsample in Hcases.
  destruct Hcases as (query & da & db & _ & _ & _ & ->).
  exists pos, neg, (sdp_score_a p), (sdp_score_b p), (sdp_query_id p),
    (sdp_doc_id_a p), (sdp_doc_id_b p).
  by repeat split.
Qed.

Lemma kd_triples_keep_scores_witness :
  let self :=
    TriplesDataset.mk Fixtures.topics Fixtures.collection
      (gen_map of_ScoredDocPair
         (KDDocPairs.docpairs_iter Fixtures.decimal_float Fixtures.kd_lines)) in
  let samples := yielded (TriplesDataset_iter self) in
  Forall2 (λ line s,
             ∃ pos neg score_a score_b qid pid1 pid2,
               py_split (py_rstrip line) = [pos; neg; qid; pid1; pid2]
               ∧ Fixtures.decimal_float pos = Some score_a
               ∧ Fixtures.decimal_float neg = Some score_b
               ∧ Sample.query_id s = qid
               ∧ Sample.doc_ids s = [pid1; pid2]
               ∧ Sample.targets s = [score_a; score_b])
          (take (length samples) Fixtures.kd_lines) samples.
Proof.
  exact (kd_triples_keep_scores Fixtures.decimal_float Fixtures.kd_lines
           (TriplesDataset.mk Fixtures.topics Fixtures.collection
              (gen_map of_ScoredDocPair
                 (KDDocPairs.docpairs_iter Fixtures.decimal_float
                                           Fixtures.kd_lines)))
           eq_refl).
Defined.

(** ** The table of the graded-run dataset *)

Lemma string_leb_trans (a b c : string) :
  String.leb a b = true → String.leb b c = true → String.leb a c = true.
Proof.
  unfold String.leb.
  destruct (a ?= b)%string eqn:Hab; [| |done].
  - by apply String.compare_eq_iff in Hab as ->.
  - intros _. destruct (b ?= c)%string eqn:Hbc; [| |done].
    + apply String.compare_eq_iff in Hbc as <-. by rewrite Hab.
    + by rewrite (string_compare_Lt_trans _ _ _ Hab Hbc).
Qed.

Lemma elem_of_merge_outer run qrels row :
  row ∈ merge_outer run qrels
  ↔ (∃ r, r ∈ run ∧ Row.query_id row = run_query_id r
          ∧ Row.doc_id row = run_doc_id r
          ∧ Row.rank row = Some (run_rank r)
          ∧ Row.score row = Some (run_score r)
          ∧ match Row.relevance row with
            | Some rel => ∃ j, j ∈ qrels ∧ same_key r j ∧ qrel_relevance j = rel
            | None => ∀ j, j ∈ qrels → ¬ same_key r j
            end)
    ∨ (∃ j, j ∈ qrels ∧ (∀ r, r ∈ run → ¬ same_key r j)
            ∧ row = Row.mk (qrel_query_id j) (qrel_doc_id j) None None
                           (Some (qrel_relevance j))).
Proof.
  unfold merge_outer. rewrite elem_of_stable_sort, elem_of_app.
  rewrite !list_elem_of_bind. split.
  - intros [(r & Hrow & Hr)|(j & Hrow & Hj)]; [left|right].
    + exists r. split; [done|].
      destruct (filter (same_key r) qrels) as [|j js] eqn:Hms.
      * apply list_elem_of_singleton in Hrow as ->. simpl.
        repeat split; try done. intros j Hj Hkey.
        assert (j ∈ filter (same_key r) qrels) as Hin
          by (by apply list_elem_of_filter).
        rewrite Hms in Hin. by apply elem_of_nil in Hin.
      * apply list_elem_of_fmap in Hrow as (j' & -> & Hj'). simpl.
        repeat split; try done. exists j'. rewrite <- Hms in Hj'.
        by apply list_elem_of_filter in Hj' as [? ?].
    + exists j. destruct (decide (Exists _ run)) as [Hex|Hex].
      * by apply elem_of_nil in Hrow.
      * apply list_elem_of_singleton in Hrow. split; [done|]. split; [|done].
        intros r Hr Hkey. apply Hex, Exists_exists. eauto.
  - intros [(r & Hr & Hq & Hd & Hk & Hs & Hrel)|(j & Hj & Hfresh & ->)];
      [left|right].
    + exists r. split; [|done]. destruct row as [q d k s rel].
      simpl in *. subst.
      destruct rel as [rel|].
      * destruct Hrel as (j & Hj & Hkey & <-).
        assert (j ∈ filter (same_key r) qrels) as Hin
          by (by apply list_elem_of_filter).
        destruct (filter (same_key r) qrels) as [|j' js];
          [by apply elem_of_nil in Hin|].
        apply list_elem_of_fmap. by exists j.
      * rewrite filter_none by done. by apply list_elem_of_singleton.
    + exists j. split; [|done]. rewrite decide_False.
      * by apply list_elem_of_singleton.
      * intros (r & Hr & Hkey)%Exists_exists. by apply (Hfresh r).
Qed.

(** X4.  The items of a graded-run dataset are the queries of the run rows
    that pass the depth cutoff: [query_ids] lists them without repetition
    in ascending order, [__len__] is their number, and every row of the
    table, also one that comes from the judgments alone, belongs to one of
    them; judgments of queries that the run does not rank are left out. *)
Theorem run_dataset_query_ids (dataset : IRDataset) (run_file : list RunRow)
    (config : RunDatasetConfig.t) :
  let self := RunDataset_init dataset run_file config in
  let kept := filter_depth (RunDatasetConfig.depth config) run_file in
  NoDup (RunDataset.query_ids self)
  ∧ StronglySorted (λ a b, String.leb a b = true) (RunDataset.query_ids self)
  ∧ (∀ q, q ∈ RunDataset.query_ids self ↔ ∃ r, r ∈ kept ∧ run_query_id r = q)
  ∧ (∀ row, row ∈ RunDataset.run self →
            Row.query_id row ∈ RunDataset.query_ids self)
  ∧ RunDataset_len self = length (remove_dups (run_query_id <$> kept)).
Proof.
  intros self kept.
  assert (∀ q, q ∈ RunDataset.query_ids self
               ↔ ∃ row, row ∈ RunDataset.run self ∧ Row.query_id row = q)
    as Hrows.
  { intros q. subst self. simpl.
    rewrite elem_of_stable_sort, elem_of_remove_dups, list_elem_of_fmap.
    naive_solver. }
  assert (∀ q, (∃ row, row ∈ RunDataset.run self ∧ Row.query_id row = q)
               ↔ ∃ r, r ∈ kept ∧ run_query_id r = q) as Hkept.
  { intros q. subst self. simpl. fold kept.
    setoid_rewrite elem_of_stable_sort. setoid_rewrite elem_of_merge_outer.
    split.
    - intros (row & [(r & Hr & Hq & _)|(j & Hj & _ & ->)] & <-).
      + exists r. by rewrite Hq.
      + apply list_elem_of_filter in Hj as [Hj _].
        apply list_elem_of_fmap in Hj as (r & Hq & Hr). by exists r.
    - intros (r & Hr & <-).
      destruct (filter (same_key r) (restrict_qrels kept (ir_qrels dataset)))
        as [|j js] eqn:Hms.
      + exists (Row.mk (run_query_id r) (run_doc_id r) (Some (run_rank r))
                       (Some (run_score r)) None).
        split; [|done]. left. exists r. repeat split; try done.
        simpl. intros j Hj Hkey.
        assert (j ∈ filter (same_key r)
                      (restrict_qrels kept (ir_qrels dataset))) as Hin
          by (by apply list_elem_of_filter).
        rewrite Hms in Hin. by apply elem_of_nil in Hin.
      + exists (Row.mk (run_query_id r) (run_doc_id r) (Some (run_rank r))
                       (Some (run_score r)) (Some (qrel_relevance j))).
        split; [|done]. left. exists r. repeat split; try done.
        simpl. exists j.
        assert (j ∈ filter (same_key r)
                      (restrict_qrels kept (ir_qrels dataset))) as Hin
          by (rewrite Hms; left).
        by apply list_elem_of_filter in Hin as [? ?]. }
  assert (NoDup (RunDataset.query_ids self)) as Hnd.
  { subst self. simpl. rewrite stable_sort_Permutation.
    apply NoDup_remove_dups. }
  split; [done|]. split; [|split; [|split]].
  - subst self. simpl. apply stable_sort_StronglySorted.
    + apply String.leb_total.
    + apply string_leb_trans.
  - intros q. by rewrite Hrows, Hkept.
  - intros row Hrow. apply Hrows. by exists row.
  - unfold RunDataset_len. apply Permutation_length, NoDup_Permutation;
      [done|apply NoDup_remove_dups|].
    intros q. rewrite Hrows, Hkept, elem_of_remove_dups, list_elem_of_fmap.
    naive_solver.
Qed.

(** X5.  The relevance column of the table is the outer join with the
    judgments: a row carries a relevance grade only if the judgments hold
    that grade for its query and document, a row without relevance has no
    judgment, every judgment of a query of the run shows up in some row, and
    a row without rank is a judged document that the run (within depth) does
    not list for that query. *)
Theorem run_dataset_relevance_join (dataset : IRDataset)
    (run_file : list RunRow) (config : RunDatasetConfig.t) :
  let self := RunDataset_init dataset run_file config in
  let kept := filter_depth (RunDatasetConfig.depth config) run_file in
  (∀ row, row ∈ RunDataset.run self →
     match Row.relevance row with
     | Some rel =>
         mkQrel (Row.query_id row) (Row.doc_id row) rel ∈ ir_qrels dataset
     | None =>
         ∀ j, j ∈ ir_qrels dataset →
              ¬ (qrel_query_id j = Row.query_id row
                 ∧ qrel_doc_id j = Row.doc_id row)
     end)
  ∧ (∀ j, j ∈ ir_qrels dataset →
          (∃ r, r ∈ kept ∧ run_query_id r = qrel_query_id j) →
          ∃ row, row ∈ RunDataset.run self
                 ∧ Row.query_id row = qrel_query_id j
                 ∧ Row.doc_id row = qrel_doc_id j
                 ∧ Row.relevance row = Some (qrel_relevance j))
  ∧ (∀ row, row ∈ RunDataset.run self → Row.rank row = None →
            is_Some (Row.relevance row)
            ∧ ∀ r, r ∈ kept →
                   ¬ (run_query_id r = Row.query_id row
                      ∧ run_doc_id r = Row.doc_id row)).
Proof.
  intros self kept. subst self. simpl. fold kept.
  setoid_rewrite elem_of_stable_sort. setoid_rewrite elem_of_merge_outer.
  assert (∀ j, j ∈ restrict_qrels kept (ir_qrels dataset)
               ↔ j ∈ ir_qrels dataset
                 ∧ ∃ r, r ∈ kept ∧ run_query_id r = qrel_query_id j) as Hres.
  { intros j. unfold restrict_qrels.
    rewrite list_elem_of_filter, list_elem_of_fmap. naive_solver. }
  split; [|split].
  - intros row [(r & Hr & Hq & Hd & _ & _ & Hrel)|(j & Hj & _ & ->)].
    + destruct (Row.relevance row) as [rel|].
      * destruct Hrel as (j & Hj & [Hkq Hkd] & <-).
        apply Hres in Hj as [Hj _]. rewrite Hq, Hd, Hkq, Hkd. by destruct j.
      * intros j Hj [Hjq Hjd]. apply (Hrel j).
        -- apply Hres. split; [done|]. exists r. split; [done|]. congruence.
        -- split; congruence.
    + simpl. apply Hres in Hj as [Hj _]. by destruct j.
  - intros j Hj Hrun.
    assert (j ∈ restrict_qrels kept (ir_qrels dataset)) as Hj'
      by (by apply Hres).
    destruct (decide (Exists (λ r, same_key r j) kept)) as [Hex|Hex].
    + apply Exists_exists in Hex as (r & Hr & Hkey).
      exists (Row.mk (run_query_id r) (run_doc_id r) (Some (run_rank r))
                     (Some (run_score r)) (Some (qrel_relevance j))).
      destruct Hkey as [Hkq Hkd]. split; [|by repeat split].
      left. exists r. repeat split; try done. simpl. by exists j.
    + exists (Row.mk (qrel_query_id j) (qrel_doc_id j) None None
                     (Some (qrel_relevance j))).
      split; [|done]. right. exists j. repeat split; try done.
      intros r Hr Hkey. apply Hex, Exists_exists. eauto.
  - intros row [(r & _ & _ & _ & Hrank & _)|(j & Hj & Hfresh & ->)] Hnone.
    + congruence.
    + simpl. split; [done|]. intros r Hr [Hq Hd].
      apply (Hfresh r Hr). by split.
Qed.

Lemma max_rank_spec (rows : list Row.t) :
  match max_rank rows with
  | Some m =>
      (∃ row, row ∈ rows ∧ Row.rank row = Some m)
      ∧ ∀ row k, row ∈ rows → Row.rank row = Some k → k ≤ m
  | None => ∀ row, row ∈ rows → Row.rank row = None
  end.
Proof.
  induction rows as [|r rows IH]; cbn [max_rank foldr].
  - intros row Hrow. by apply elem_of_nil in Hrow.
  - fold (max_rank rows). destruct (Row.rank r) as [x|] eqn:Hr.
    + destruct (max_rank rows) as [y|].
      * destruct IH as [(row & Hrow & Hy) Hmax]. split.
        -- destruct (Z.max_spec x y) as [[_ ->]|[_ ->]].
           ++ exists row. split; [by right|done].
           ++ exists r. split; [left|done].
        -- intros row' k [->|Hin]%elem_of_cons Hk.
           ++ rewrite Hr in Hk. injection Hk as <-. lia.
           ++ specialize (Hmax _ _ Hin Hk). lia.
      * split; [exists r; split; [left|done]|].
        intros row' k [->|Hin]%elem_of_cons Hk.
        -- rewrite Hr in Hk. injection Hk as <-. lia.
        -- rewrite (IH _ Hin) in Hk. done.
    + destruct (max_rank rows) as [y|].
      * destruct IH as [(row & Hrow & Hy) Hmax]. split.
        -- exists row. split; [by right|done].
        -- intros row' k [->|Hin]%elem_of_cons Hk; [congruence|eauto].
      * intros row' [->|Hin]%elem_of_cons; [done|eauto].
Qed.

(** X6.  The construction warns about the depth exactly when some run row
    passes the cutoff and every such row ranks strictly below the depth,
    and about the sample size exactly when the strategy is "top" and the
    sample size exceeds the depth.  For the unlimited depth [-1] the second
    warning is therefore issued for every non-negative sample size. *)
Theorem run_dataset_warnings (dataset : IRDataset) (run_file : list RunRow)
    (config : RunDatasetConfig.t) :
  let self := RunDataset_init dataset run_file config in
  let depth := RunDatasetConfig.depth config in
  let kept := filter_depth depth run_file in
  (depth_warning ∈ RunDataset.warnings self
   ↔ (∃ r, r ∈ kept) ∧ ∀ r, r ∈ kept → run_rank r < depth)
  ∧ (sample_size_warning ∈ RunDataset.warnings self
     ↔ RunDatasetConfig.sampling_strategy config = top
       ∧ depth < RunDatasetConfig.sample_size config)
  ∧ (RunDatasetConfig.sampling_strategy config = top → depth = -1 →
     0 ≤ RunDatasetConfig.sample_size config →
     sample_size_warning ∈ RunDataset.warnings self).
Proof.
  intros self depth kept.
  assert (sample_size_warning ∈ RunDataset.warnings self
          ↔ RunDatasetConfig.sampling_strategy config = top
            ∧ depth < RunDatasetConfig.sample_size config) as Hsize.
  { subst self. cbn [RunDataset_init RunDataset.warnings]. fold depth.
    rewrite elem_of_app. split.
    - intros [Hw|Hw].
      + destruct (max_rank _) as [m|]; [|by apply elem_of_nil in Hw].
        case_decide; [|by apply elem_of_nil in Hw].
        by apply list_elem_of_singleton in Hw.
      + case_decide; [done|by apply elem_of_nil in Hw].
    - intros Hcond. right. rewrite decide_True by done. left. }
  split; [|split; [done|]].
  - subst self. cbn [RunDataset_init RunDataset.warnings]. fold depth kept.
    set (table := stable_sort row_leb
                    (merge_outer kept (restrict_qrels kept (ir_qrels dataset)))).
    assert (∀ k, (∃ row, row ∈ table ∧ Row.rank row = Some k)
                 ↔ ∃ r, r ∈ kept ∧ run_rank r = k) as Hranked.
    { intros k. subst table. setoid_rewrite elem_of_stable_sort. split.
      - intros (row & Hrow & Hk).
        destruct (proj1 (merge_outer_ranked kept
                           (restrict_qrels kept (ir_qrels dataset))
                           (Row.query_id row) (Row.doc_id row) k))
          as (r & Hr & _ & _ & Hrk);
          [by exists row|]. by exists r.
      - intros (r & Hr & Hk).
        destruct (proj2 (merge_outer_ranked kept
                           (restrict_qrels kept (ir_qrels dataset))
                           (run_query_id r) (run_doc_id r) k))
          as (row & Hrow & _ & _ & Hrk); [by exists r|]. by exists row. }
    pose proof (max_rank_spec table) as Hmax.
    rewrite elem_of_app. split.
    + intros [Hw|Hw].
      * destruct (max_rank table) as [m|]; [|by apply elem_of_nil in Hw].
        case_decide as Hlt; [|by apply elem_of_nil in Hw].
        destruct Hmax as [(row & Hrow & Hm) Hmax].
        destruct (proj1 (Hranked m)) as (r & Hr & Hrm); [by exists row|].
        split; [by exists r|]. intros r' Hr'.
        destruct (proj2 (Hranked (run_rank r'))) as (row' & Hrow' & Hk');
          [by exists r'|].
        specialize (Hmax _ _ Hrow' Hk'). lia.
      * case_decide; [|by apply elem_of_nil in Hw].
        by apply list_elem_of_singleton in Hw.
    + intros [(r & Hr) Hbelow]. left.
      destruct (proj2 (Hranked (run_rank r))) as (row & Hrow & Hk);
        [by exists r|].
      destruct (max_rank table) as [m|].
      * destruct Hmax as [(row' & Hrow' & Hm) _].
        destruct (proj1 (Hranked m)) as (r' & Hr' & Hrm); [by exists row'|].
        specialize (Hbelow _ Hr'). rewrite decide_True by lia. left.
      * rewrite (Hmax _ Hrow) in Hk. done.
  - intros Htop Hdepth Hsize'. apply Hsize. split; [done|lia].
Qed.

(** ** The item accessor, continued *)

(** The item accessor with the "top" strategy, step by step. *)
Lemma getitem_top (dataset : IRDataset) (run_file : list RunRow)
    (config : RunDatasetConfig.t) (idx : Z) (g : rng) (query_id : string) :
  let self := RunDataset_init dataset run_file config in
  let group := group_rows self query_id in
  let rows := frame_head (RunDatasetConfig.sample_size config) group in
  RunDatasetConfig.sampling_strategy config = top →
  py_index (RunDataset.query_ids self) idx = Ok query_id →
  RunDataset_getitem self idx g
  = match py_getitem (RunDataset.queries self) query_id with
    | Raise e => Raise e
    | Ok query =>
        match mapM_result (py_getitem (RunDataset.docs self))
                          (Row.doc_id <$> rows) with
        | Raise e => Raise e
        | Ok docs =>
            Ok (Sample.mk query_id query (Row.doc_id <$> rows) docs
                  (loc_targets (RunDatasetConfig.targets config) rows
                               (Row.doc_id <$> rows))
                  (Some ((λ r, inject_Z (fillna 0 (Row.relevance r)))
                           <$> group)), g)
        end
    end.
Proof.
  intros self group rows Hstrategy Hidx.
  pose proof (get_group_query_ids dataset run_file config query_id
                (py_index_elem_of _ _ _ Hidx)) as [Hgroup _].
  fold self in Hgroup. fold group in Hgroup.
  unfold RunDataset_getitem, mbind, rand_bind, lift.
  rewrite Hidx, Hgroup.
  destruct (py_getitem (RunDataset.queries self) query_id) as [query|e];
    [|done].
  replace (RunDataset.config self) with config by done.
  rewrite Hstrategy. cbn [mret rand_ret]. fold rows.
  by destruct (mapM_result _ _) as [docs|e].
Qed.

Lemma mapM_result_getitem_missing {V} (d : gmap string V) (ks : list string) :
  Exists (λ k, d !! k = None) ks →
  mapM_result (py_getitem d) ks = Raise KeyError.
Proof.
  induction ks as [|k ks IH]; intros Hex; [by apply Exists_nil in Hex|].
  rewrite mapM_result_cons.
  destruct (d !! k) as [v|] eqn:Hk.
  - rewrite (py_getitem_Some _ _ _ Hk).
    apply Exists_cons in Hex as [Hex|Hex]; [congruence|].
    by rewrite IH.
  - by rewrite (py_getitem_None _ _ Hk).
Qed.

Lemma sample_Raise {A} (n : Z) (l : list A) (g : rng) e :
  sample n l g = Raise e → e = ValueError.
Proof.
  unfold sample. destruct (decide (n < 0)); [by intros [= <-]|].
  destruct (decide (Z.of_nat (length l) < n)); [by intros [= <-]|done].
Qed.

(** X7.  [RunDataset.__getitem__] follows Python's list indexing: an index
    outside [-len, len) raises [IndexError], whatever the strategy, and a
    negative index within range selects the same query as the index counted
    from the end. *)
Theorem getitem_index (self : RunDataset.t) (idx : Z) (g : rng) :
  let len := Z.of_nat (RunDataset_len self) in
  (¬ (- len ≤ idx < len) → RunDataset_getitem self idx g = Raise IndexError)
  ∧ (- len ≤ idx < 0 →
     RunDataset_getitem self idx g = RunDataset_getitem self (len + idx) g).
Proof.
  intros len. subst len. unfold RunDataset_len.
  set (ids := RunDataset.query_ids self).
  split.
  - intros Hout. unfold RunDataset_getitem, mbind, rand_bind, lift. fold ids.
    unfold py_index. by rewrite !decide_False by lia.
  - intros Hneg.
    assert (py_index ids idx = py_index ids (Z.of_nat (length ids) + idx))
      as Hidx.
    { unfold py_index. rewrite (decide_False (P := 0 ≤ idx < _)) by lia.
      rewrite (decide_True (P := - _ ≤ idx < 0)) by lia.
      by rewrite (decide_True (P := 0 ≤ _ + idx < _)) by lia. }
    unfold RunDataset_getitem. fold ids. by rewrite Hidx.
Qed.

(** X8.  Lookups are fatal.  For a valid index, a query id without an entry
    in the query table makes the accessor raise [KeyError] under either
    strategy, before anything is sampled; with the "top" strategy a sampled
    document without an entry in the document store does the same. *)
Theorem getitem_lookup_errors (dataset : IRDataset) (run_file : list RunRow)
    (config : RunDatasetConfig.t) (idx : Z) (query_id : string) :
  let self := RunDataset_init dataset run_file config in
  let rows := frame_head (RunDatasetConfig.sample_size config)
                         (group_rows self query_id) in
  py_index (RunDataset.query_ids self) idx = Ok query_id →
  (RunDataset.queries self !! query_id = None →
   ∀ g, RunDataset_getitem self idx g = Raise KeyError)
  ∧ (RunDatasetConfig.sampling_strategy config = top →
     is_Some (RunDataset.queries self !! query_id) →
     Exists (λ r, RunDataset.docs self !! Row.doc_id r = None) rows →
     ∀ g, RunDataset_getitem self idx g = Raise KeyError).
Proof.
  intros self rows Hidx. subst self rows. split.
  - intros Hquery g.
    destruct (RunDatasetConfig.sampling_strategy config) eqn:Hstrategy.
    + rewrite (getitem_single_relevant dataset run_file config idx g query_id
                 Hstrategy Hidx).
      by rewrite (py_getitem_None _ _ Hquery).
    + rewrite (getitem_top dataset run_file config idx g query_id
                 Hstrategy Hidx).
      by rewrite (py_getitem_None _ _ Hquery).
  - intros Hstrategy [query Hquery] Hmissing g.
    rewrite (getitem_top dataset run_file config idx g query_id Hstrategy Hidx).
    rewrite (py_getitem_Some _ _ _ Hquery).
    rewrite mapM_result_getitem_missing; [done|].
    apply Exists_fmap. by eapply Exists_impl.
Qed.

Lemma getitem_lookup_errors_witness :
  (∀ g, RunDataset_getitem
          (RunDataset_init
             (mkIRDataset ∅ Fixtures.collection Fixtures.qrels Done)
             Fixtures.run_file
             (RunDatasetConfig.mk relevance_field (-1) 3 top)) 0 g
        = Raise KeyError)
  ∧ (∀ g, RunDataset_getitem
            (RunDataset_init
               (mkIRDataset Fixtures.topics ∅ Fixtures.qrels Done)
               Fixtures.run_file
               (RunDatasetConfig.mk relevance_field (-1) 3 top)) 0 g
          = Raise KeyError).
Proof.
  split.
  - destruct (getitem_lookup_errors
                (mkIRDataset ∅ Fixtures.collection Fixtures.qrels Done)
                Fixtures.run_file
                (RunDatasetConfig.mk relevance_field (-1) 3 top) 0 "q1")
      as [Hquery _]; [reflexivity|].
    apply Hquery. reflexivity.
  - destruct (getitem_lookup_errors
                (mkIRDataset Fixtures.topics ∅ Fixtures.qrels Done)
                Fixtures.run_file
                (RunDatasetConfig.mk relevance_field (-1) 3 top) 0 "q1")
      as [_ Hdocs]; [reflexivity|].
    apply Hdocs.
    + reflexivity.
    + by eexists.
    + vm_compute. by left.
Defined.

(** X9.  With the "single_relevant" strategy a sample size below 1 makes
    the accessor raise [ValueError] for every valid index whose query text
    can be looked up, also when the query has relevant documents: the number
    of non-relevant documents to draw is negative. *)
Theorem single_relevant_needs_sample_size (dataset : IRDataset)
    (run_file : list RunRow) (config : RunDatasetConfig.t) (idx : Z)
    (query_id : string) (g : rng) :
  let self := RunDataset_init dataset run_file config in
  RunDatasetConfig.sampling_strategy config = single_relevant →
  RunDatasetConfig.sample_size config < 1 →
  py_index (RunDataset.query_ids self) idx = Ok query_id →
  is_Some (RunDataset.queries self !! query_id) →
  RunDataset_getitem self idx g = Raise ValueError.
Proof.
  intros self Hstrategy Hsize Hidx [query Hquery]. subst self.
  rewrite (getitem_single_relevant dataset run_file config idx g query_id
             Hstrategy Hidx).
  rewrite (py_getitem_Some _ _ _ Hquery).
  destruct (sample 1 _ g) as [[rel g1]|e] eqn:Hrel.
  - rewrite sample_out_of_range; [done|]. left. lia.
  - by rewrite (sample_Raise _ _ _ _ Hrel).
Qed.

Lemma single_relevant_needs_sample_size_witness :
  RunDataset_getitem (Fixtures.run_dataset single_relevant 0 (-1)) 0
                     Fixtures.counting = Raise ValueError.
Proof.
  apply (single_relevant_needs_sample_size Fixtures.ir_dataset
           Fixtures.run_file
           (RunDatasetConfig.mk relevance_field (-1) 0 single_relevant)
           0 "q1" Fixtures.counting).
  - reflexivity.
  - simpl. lia.
  - reflexivity.
  - by eexists.
Defined.

(** A row that the run ranks, as opposed to one that only the judgments
    know. *)
Definition ranked (r : Row.t) : Prop := is_Some (Row.rank r).

#[global] Instance ranked_dec r : Decision (ranked r).
Proof. unfold ranked. apply _. Defined.

Lemma rank_order_split (l : list Row.t) :
  StronglySorted rank_order l →
  l = filter ranked l ++ filter (λ r, ¬ ranked r) l.
Proof.
  induction 1 as [|x l Hl IH Hx]; [done|]. rewrite !filter_cons.
  destruct (decide (ranked x)) as [Hr|Hr].
  - rewrite decide_False by tauto. simpl. by f_equal.
  - rewrite decide_True by done.
    assert (∀ y, y ∈ l → ¬ ranked y) as Hun.
    { intros y Hy [k Hk]. eapply Forall_forall in Hx; [|exact Hy].
      unfold rank_order in Hx. rewrite Hk in Hx.
      destruct (Row.rank x) as [kx|] eqn:Hkx; [|done].
      apply Hr. by eexists. }
    rewrite (filter_none ranked l) by done. simpl. f_equal.
    clear -Hun. induction l as [|y l IH]; [done|].
    rewrite filter_cons, decide_True by (apply Hun; left).
    f_equal. apply IH. intros z Hz. apply Hun. by right.
Qed.

(** X10.  With the "top" strategy the ranked rows of a query are sampled
    before the rows that only the judgments contribute.  A sample size up
    to the number of ranked rows gives documents of the run only.  A larger
    sample size, when the query has judged documents outside the run (within
    depth), puts such a document into the sample: the case the constructor
    warns about. *)
Theorem top_sample_ranked_first (dataset : IRDataset) (run_file : list RunRow)
    (config : RunDatasetConfig.t) (idx : Z) (g g' : rng) (query_id : string)
    (item : Sample.t) :
  let self := RunDataset_init dataset run_file config in
  let kept := filter_depth (RunDatasetConfig.depth config) run_file in
  let group := group_rows self query_id in
  let n := RunDatasetConfig.sample_size config in
  let ranked_count := Z.of_nat (length (filter ranked group)) in
  RunDatasetConfig.sampling_strategy config = top →
  0 ≤ n →
  py_index (RunDataset.query_ids self) idx = Ok query_id →
  RunDataset_getitem self idx g = Ok (item, g') →
  (n ≤ ranked_count →
   ∀ d, d ∈ Sample.doc_ids item →
        ∃ r, r ∈ kept ∧ run_query_id r = query_id ∧ run_doc_id r = d)
  ∧ (ranked_count < n → ranked_count < Z.of_nat (length group) →
     ∃ d rel,
       d ∈ Sample.doc_ids item
       ∧ mkQrel query_id d rel ∈ ir_qrels dataset
       ∧ ∀ r, r ∈ kept → ¬ (run_query_id r = query_id ∧ run_doc_id r = d)).
Proof.
  intros self kept group n ranked_count Hstrategy Hn Hidx Hitem.
  subst self group n ranked_count.
  rewrite (getitem_top dataset run_file config idx g query_id Hstrategy Hidx)
    in Hitem.
  set (self := RunDataset_init dataset run_file config) in *.
  set (group := group_rows self query_id) in *.
  set (n := RunDatasetConfig.sample_size config) in *.
  destruct (py_getitem _ query_id) as [query|e]; [|done].
  destruct (mapM_result _ _) as [docs|e]; [|done].
  injection Hitem as <- <-. cbn [Sample.doc_ids].
  unfold frame_head. rewrite decide_True by done.
  pose proof (group_rows_rank_order dataset run_file config query_id)
    as Hsorted.
  fold self group in Hsorted. apply rank_order_split in Hsorted.
  assert (∀ row, row ∈ group →
            row ∈ merge_outer kept (restrict_qrels kept (ir_qrels dataset))
            ∧ Row.query_id row = query_id) as Hgroup.
  { intros row Hrow. subst group. unfold group_rows in Hrow.
    apply list_elem_of_filter in Hrow as [Hq Hrow]. split; [|done].
    subst self. simpl in Hrow. by apply elem_of_stable_sort in Hrow. }
  split.
  - intros Hle d Hd. apply list_elem_of_fmap in Hd as (row & -> & Hrow).
    rewrite Hsorted, take_app_le in Hrow by lia.
    apply elem_of_take in Hrow as (i & Hrow & _).
    apply list_elem_of_lookup_2, list_elem_of_filter in Hrow
      as [[k Hk] Hrow].
    destruct (Hgroup _ Hrow) as [Htable Hq].
    destruct (proj1 (merge_outer_ranked kept
                       (restrict_qrels kept (ir_qrels dataset))
                       query_id (Row.doc_id row) k))
      as (r & Hr & Hrq & Hrd & _); [by exists row|].
    by exists r.
  - intros Hlt Hmore.
    assert (length group
            = (length (filter ranked group)
               + length (filter (λ r, ¬ ranked r) group))%nat) as Hlen
      by (by rewrite Hsorted at 1; rewrite length_app).
    destruct (filter (λ r, ¬ ranked r) group) as [|row rest] eqn:Hun;
      [simpl in Hlen; lia|].
    assert (row ∈ filter (λ r, ¬ ranked r) group) as Hrow
      by (rewrite Hun; left).
    apply list_elem_of_filter in Hrow as [Hunranked Hrow].
    destruct (Hgroup _ Hrow) as [Htable Hq].
    apply elem_of_merge_outer in Htable
      as [(r & _ & _ & _ & Hk & _)|(j & Hj & Hfresh & Heq)].
    { exfalso. apply Hunranked. by eexists. }
    exists (Row.doc_id row), (qrel_relevance j). split; [|split].
    + apply list_elem_of_fmap. exists row. split; [done|].
      rewrite Hsorted.
      apply (list_elem_of_lookup_2 _ (length (filter ranked group))).
      rewrite lookup_take_lt by lia.
      by rewrite lookup_app_r, Nat.sub_diag by done.
    + apply list_elem_of_filter in Hj as [_ Hj].
      rewrite <- Hq, Heq. simpl. by destruct j.
    + intros r Hr [Hrq Hrd]. apply (Hfresh r Hr).
      rewrite Heq in Hq, Hrd. simpl in *. split; congruence.
Qed.

Lemma top_sample_ranked_first_witness :
  ∃ item,
    RunDataset_getitem (Fixtures.run_dataset top 3 2) 0 Fixtures.zeros
      = Ok (item, Fixtures.zeros)
    ∧ Sample.doc_ids item = ["d1"; "d2"; "d4"]
    ∧ ∃ d rel,
        d ∈ Sample.doc_ids item
        ∧ mkQrel "q1" d rel ∈ Fixtures.qrels
        ∧ ∀ r, r ∈ filter_depth 2 Fixtures.run_file →
               ¬ (run_query_id r = "q1" ∧ run_doc_id r = d).
Proof.
  eexists. split; [vm_compute; reflexivity|]. split; [reflexivity|].
  eapply (top_sample_ranked_first Fixtures.ir_dataset Fixtures.run_file
            (RunDatasetConfig.mk relevance_field 2 3 top) 0
            Fixtures.zeros Fixtures.zeros "q1").
  - reflexivity.
  - simpl. lia.
  - reflexivity.
  - vm_compute. reflexivity.
  - vm_compute. reflexivity.
  - vm_compute. reflexivity.
Defined.

(** X11.  With the "single_relevant" strategy and the relevance grade as
    target, a sample with distinct document ids has a positive first target,
    the grade of the relevant document, and zero for every other
    document. *)
Theorem single_relevant_targets (dataset : IRDataset) (run_file : list RunRow)
    (config : RunDatasetConfig.t) (idx : Z) (g g' : rng) (query_id : string)
    (item : Sample.t) :
  let self := RunDataset_init dataset run_file config in
  RunDatasetConfig.sampling_strategy config = single_relevant →
  RunDatasetConfig.targets config = relevance_field →
  py_index (RunDataset.query_ids self) idx = Ok query_id →
  RunDataset_getitem self idx g = Ok (item, g') →
  NoDup (Sample.doc_ids item) →
  ∃ grade : Z,
    0 < grade
    ∧ Sample.targets item
      = Finite (inject_Z grade)
        :: replicate (length (Sample.doc_ids item) - 1) (Finite 0).
Proof.
  intros self Hstrategy Htargets Hidx Hitem Hnd. subst self.
  rewrite (getitem_single_relevant dataset run_file config idx g query_id
             Hstrategy Hidx) in Hitem.
  destruct (py_getitem _ query_id) as [query|e]; [|done].
  destruct (sample 1 _ g) as [[rel g1]|e] eqn:Hrel; [|done].
  destruct (sample _ _ g1) as [[others g2]|e] eqn:Hothers; [|done].
  destruct (mapM_result _ _) as [docs|e]; [|done].
  injection Hitem as <- <-. cbn [Sample.doc_ids Sample.targets] in *.
  rewrite loc_targets_NoDup, Htargets by done.
  apply sample_Ok in Hrel as (Hsub & Hlen & _).
  apply sample_Ok in Hothers as (Hsub' & _).
  destruct rel as [|rel_row [|? ?]]; simpl in Hlen; try lia.
  assert (rel_row ∈ filter relevant
            (group_rows (RunDataset_init dataset run_file config) query_id))
    as Hin by (eapply elem_of_submseteq; [left|exact Hsub]).
  apply list_elem_of_filter in Hin as [Hrelevant _].
  unfold relevant in Hrelevant.
  destruct (Row.relevance rel_row) as [grade|] eqn:Hgrade; [|done].
  exists grade. split; [done|].
  change ([rel_row] ++ others) with (rel_row :: others).
  assert (length (Row.doc_id <$> rel_row :: others) - 1 = length others)%nat
    as -> by (rewrite length_fmap; simpl; lia).
  rewrite fmap_cons. cbn [target_of]. rewrite Hgrade. cbn [fillna default].
  f_equal.
  assert (Forall non_relevant_bool others) as Hnon.
  { apply Forall_forall. intros r Hr.
    eapply elem_of_submseteq in Hr; [|exact Hsub'].
    by apply list_elem_of_filter in Hr as [? _]. }
  clear -Hnon. induction Hnon as [|r others [Hzero _] _ IH]; [done|].
  cbn [length replicate]. rewrite fmap_cons, IH. by rewrite Hzero.
Qed.

Lemma single_relevant_targets_witness :
  ∃ item g',
    RunDataset_getitem (Fixtures.run_dataset single_relevant 3 (-1)) 0
                       Fixtures.counting = Ok (item, g')
    ∧ ∃ grade : Z,
        0 < grade
        ∧ Sample.targets item
          = Finite (inject_Z grade)
            :: replicate (length (Sample.doc_ids item) - 1) (Finite 0).
Proof.
  eexists _, _. split; [vm_compute; reflexivity|].
  eapply (single_relevant_targets Fixtures.ir_dataset Fixtures.run_file
            (RunDatasetConfig.mk relevance_field (-1) 3 single_relevant) 0
            Fixtures.counting _ "q1").
  - reflexivity.
  - reflexivity.
  - reflexivity.
  - vm_compute. reflexivity.
  - apply NoDup_ListNoDup. vm_compute.
    repeat constructor; simpl; intuition discriminate.
Defined.

(** ** The batch collator, continued *)


(** X13.  When every sample has as many targets as document ids, the
    target tensor of the batch has one entry per document of the batch: its
    length is the sum of the per-query document counts. *)
Theorem collate_target_count (self : MVRDataModule.t)
    (samples : list Sample.t) :
  Forall (λ s, length (Sample.targets s) = length (Sample.doc_ids s)) samples →
  let batch := collate_fn self samples in
  length (Batch.targets batch) = sum_list (length <$> Batch.doc_ids batch).
Proof.
  intros Hlen batch. subst batch.
  rewrite collate_targets, collate_doc_ids, length_join.
  f_equal. rewrite <- !list_fmap_compose.
  apply list_fmap_ext. intros i s Hs. simpl.
  by eapply Forall_lookup_1 in Hlen.
Qed.

Lemma collate_target_count_witness :
  let batch := collate_fn Fixtures.datamodule Fixtures.mixed_samples in
  length (Batch.targets batch) = sum_list (length <$> Batch.doc_ids batch).
Proof.
  apply (collate_target_count Fixtures.datamodule Fixtures.mixed_samples).
  repeat constructor.
Defined.

(** X14.  The relevance tensor of a batch has one row per sample that
    carries a relevance tuple, not one per query.  When every sample
    carries one, row [i] is the zero-padded tuple of sample [i]; when some
    sample carries none, the tensor has fewer rows than the batch has
    queries, so its rows no longer line up with the queries. *)
Theorem collate_relevance_rows (self : MVRDataModule.t)
    (samples : list Sample.t) (rel : list (list Q)) :
  let batch := collate_fn self samples in
  let carried := omap Sample.relevance samples in
  Batch.relevance batch = Some rel →
  length rel = length carried
  ∧ (Forall (λ s, is_Some (Sample.relevance s)) samples →
     Forall2 (λ s row,
                ∃ tuple, Sample.relevance s = Some tuple
                         ∧ row = pad_to (max_len carried) tuple)
             samples rel)
  ∧ (¬ Forall (λ s, is_Some (Sample.relevance s)) samples →
     (length rel < length (Batch.query_ids batch))%nat).
Proof.
  intros batch carried Hrel. subst batch.
  rewrite collate_relevance in Hrel. fold carried in Hrel.
  assert (rel = pad_sequence carried) as ->.
  { destruct carried; [done|]. by injection Hrel as <-. }
  clear Hrel. unfold pad_sequence. rewrite length_fmap.
  split; [done|]. split.
  - intros Hall. apply Forall2_fmap_r.
    generalize (max_len carried). intros n. subst carried.
    induction Hall as [|s samples [tuple Hs] _ IH]; [constructor|].
    cbn [omap list_omap]. rewrite Hs. constructor; [|exact IH].
    by exists tuple.
  - intros Hsome.
    assert (Batch.query_ids (collate_fn self samples)
            = Sample.query_id <$> samples) as ->
      by (unfold collate_fn; by rewrite collate_loop).
    rewrite length_fmap. subst carried.
    clear -Hsome. apply not_Forall_Exists in Hsome; [|apply _].
    induction Hsome as [s samples Hs|s samples _ IH].
    + cbn [omap list_omap]. destruct (Sample.relevance s) as [t|] eqn:Ht.
      * exfalso. apply Hs. by eexists.
      * assert (length (omap Sample.relevance samples) ≤ length samples)%nat.
        { clear. induction samples as [|s' samples IH]; [done|].
          cbn [omap list_omap]. destruct (Sample.relevance s'); simpl; lia. }
        simpl. lia.
    + cbn [omap list_omap]. destruct (Sample.relevance s); simpl; lia.
Qed.

Lemma collate_relevance_rows_witness :
  ∃ rel,
    Batch.relevance (collate_fn Fixtures.datamodule Fixtures.mixed_samples)
      = Some rel
    ∧ length rel = 2%nat
    ∧ length (Batch.query_ids
                (collate_fn Fixtures.datamodule Fixtures.mixed_samples))
      = 3%nat.
Proof.
  eexists. split; [reflexivity|].
  destruct (collate_relevance_rows Fixtures.datamodule Fixtures.mixed_samples
              _ eq_refl) as (Hlen & _ & _).
  split; [exact Hlen|reflexivity].
Defined.

(** ** Runs from scores, continued *)

Lemma length_bind_replicate {A} (a : list A) (n : nat) :
  length (a ≫= λ x, replicate n x) = (length a * n)%nat.
Proof.
  induction a as [|x a IH]; [done|].
  rewrite bind_cons, length_app, length_replicate, IH. simpl. lia.
Qed.

(** X15.  [create_run_from_scores] raises [ValueError] when its arguments
    do not fit together: when the number of document tuples is neither the
    number of query ids nor 1, when a single non-empty tuple is given for
    a number of query ids other than 1, and when there is not exactly one
    score per flattened document. *)
Theorem create_run_from_scores_length_errors (query_ids : list string)
    (doc_ids : list (list string)) (scores : list pyfloat) :
  (length doc_ids ≠ length query_ids → length doc_ids ≠ 1%nat →
   create_run_from_scores query_ids doc_ids scores = Raise ValueError)
  ∧ (∀ ids, doc_ids = [ids] → ids ≠ [] → length query_ids ≠ 1%nat →
     create_run_from_scores query_ids doc_ids scores = Raise ValueError)
  ∧ (length doc_ids = length query_ids →
     length scores ≠ length (mjoin doc_ids) →
     create_run_from_scores query_ids doc_ids scores = Raise ValueError).
Proof.
  unfold create_run_from_scores, np_repeat. rewrite length_fmap.
  split; [|split].
  - intros Hne Hone. rewrite decide_False by done.
    by destruct doc_ids as [|ids [|ids' doc_ids]].
  - intros ids -> Hids Hone. rewrite decide_False by (simpl; congruence).
    cbn [fmap list_fmap mbind result_bind]. unfold make_frame.
    rewrite decide_False; [done|]. intros [Hlen _].
    rewrite length_bind_replicate in Hlen. simpl in Hlen.
    rewrite app_nil_r in Hlen. destruct ids as [|d ids]; [done|].
    simpl in Hlen. nia.
  - intros Hlen Hscores. rewrite decide_True by done.
    cbn [mbind result_bind]. unfold make_frame.
    rewrite decide_False; [done|]. intros [_ Hs]. congruence.
Qed.

(** X16.  Whenever the lengths fit, also with repeated query ids, the run
    has one row per score; every row has [q0 = 0] and the system name
    ["lightning_ir"]; the row labels are the positions of the flattened
    batch, each once; a row has no rank exactly when its score is
    not-a-number; and of the rows that share a query id those whose score
    is a number carry the ranks 1, 2, ... up to their count, each once:
    rows of a repeated query id are ranked together. *)
Theorem create_run_from_scores_by_query_id (query_ids : list string)
    (doc_ids : list (list string)) (scores : list pyfloat) :
  length doc_ids = length query_ids →
  length scores = length (mjoin doc_ids) →
  ∃ run,
    create_run_from_scores query_ids doc_ids scores = Ok run
    ∧ length run = length scores
    ∧ Forall (λ r, Run.q0 r = 0 ∧ Run.system r = lightning_ir_system) run
    ∧ Run.index <$> run ≡ₚ seq 0 (length scores)
    ∧ (∀ r, r ∈ run → Run.rank r = None ↔ Run.score r = NaN)
    ∧ ∀ q, ranks_of q run
           ≡ₚ rank_column (length (filter (λ r, Run.query_id r = q) run))
                          (nan_scores_of q run).
Proof.
  intros Hlen Hscores.
  rewrite create_run_from_scores_frame by done. cbv zeta.
  set (frame := flat_rows query_ids doc_ids scores).
  fold (attach_rank frame).
  eexists. split; [done|].
  assert (length frame = length scores) as Hframe.
  { subst frame. unfold flat_rows.
    rewrite length_imap, !length_zip_with, length_query_column by done. lia. }
  split; [|split; [|split; [|split]]].
  - by rewrite length_stable_sort, length_fmap.
  - apply Forall_forall. intros r Hr.
    apply elem_of_stable_sort, list_elem_of_fmap in Hr.
    by destruct Hr as (s & -> & _).
  - rewrite stable_sort_Permutation, <- list_fmap_compose.
    change (Run.index ∘ attach_rank frame) with sr_index.
    assert (sr_index <$> frame = seq 0 (length frame)) as ->;
      [|by rewrite Hframe].
    apply list_eq. intros i. rewrite list_lookup_fmap.
    destruct (frame !! i) as [r|] eqn:Hr; simpl.
    + pose proof (lookup_lt_Some _ _ _ Hr).
      apply flat_rows_lookup in Hr as [-> _].
      symmetry. by apply lookup_seq_lt.
    + symmetry. apply lookup_seq_ge. by apply lookup_ge_None.
  - intros r Hr. apply elem_of_stable_sort, list_elem_of_fmap in Hr.
    destruct Hr as (s & -> & _). apply group_rank_None.
  - intros q. rewrite ranks_of_sorted, nan_scores_of_sorted.
    rewrite stable_sort_Permutation, filter_fmap_comm, length_fmap.
    apply group_ranks_Permutation, flat_rows_NoDup.
Qed.

(** The query id [q1] is given twice and one of its two scores is
    not-a-number. *)
Lemma create_run_from_scores_by_query_id_witness :
  ∃ run,
    create_run_from_scores ["q1"; "q2"; "q1"; "q1"]
                           [["a"]; ["b"]; ["c"]; ["d"]]
                           [Finite 1; Finite 2; NaN; Finite 3] = Ok run
    ∧ Run.doc_id <$> run = ["b"; "d"; "a"; "c"]
    ∧ ranks_of "q1" run ≡ₚ [Some 1; Some 2; None]
    ∧ ranks_of "q2" run ≡ₚ [Some 1].
Proof.
  destruct (create_run_from_scores_by_query_id
              ["q1"; "q2"; "q1"; "q1"] [["a"]; ["b"]; ["c"]; ["d"]]
              [Finite 1; Finite 2; NaN; Finite 3])
    as (run & Hrun & _ & _ & _ & _ & Hranks); [reflexivity|reflexivity|].
  exists run. split; [exact Hrun|].
  pose proof (Hranks "q1") as H1. pose proof (Hranks "q2") as H2.
  vm_compute in Hrun. injection Hrun as <-.
  split; [reflexivity|]. split; [exact H1|exact H2].
Defined.

(** X17.  In a run made from scores, a row has a rank exactly when its
    score is a number, ranks start at 1, and the row of rank 1 of a query
    id has a score that no score of that query id exceeds. *)
Theorem create_run_from_scores_top_rank (query_ids : list string)
    (doc_ids : list (list string)) (scores : list pyfloat)
    (run : list Run.t) :
  create_run_from_scores query_ids doc_ids scores = Ok run →
  (∀ r, r ∈ run →
        match Run.rank r with
        | Some k => 1 ≤ k ∧ is_nan (Run.score r) = false
        | None => Run.score r = NaN
        end)
  ∧ (∀ r r', r ∈ run → r' ∈ run → Run.query_id r' = Run.query_id r →
             Run.rank r = Some 1 →
             float_compare (Run.score r') (Run.score r) ≠ Some Gt
             ∧ (is_nan (Run.score r') = false →
                float_le (Run.score r') (Run.score r))).
Proof.
  unfold create_run_from_scores. intros Hrun.
  destruct (np_repeat _ _) as [qcol|e]; [|done].
  cbn [mbind result_bind] in Hrun.
  destruct (make_frame _ _ _) as [frame|e]; [|done].
  cbn [mbind result_bind mret result_ret] in Hrun. injection Hrun as <-.
  fold (attach_rank frame).
  assert (∀ r, r ∈ stable_sort (run_leb (key_dict query_ids))
                     (attach_rank frame <$> frame) →
            ∃ s, s ∈ frame ∧ Run.query_id r = sr_query_id s
                 ∧ Run.score r = sr_score s
                 ∧ Run.rank r = group_rank frame s) as Hrows.
  { intros r Hr. apply elem_of_stable_sort, list_elem_of_fmap in Hr.
    destruct Hr as (s & -> & Hs). by exists s. }
  assert (∀ r r', r ∈ stable_sort (run_leb (key_dict query_ids))
                        (attach_rank frame <$> frame) →
            r' ∈ stable_sort (run_leb (key_dict query_ids))
                   (attach_rank frame <$> frame) →
            Run.query_id r' = Run.query_id r → Run.rank r = Some 1 →
            float_compare (Run.score r') (Run.score r) ≠ Some Gt) as Htop.
  { intros r r' Hr Hr' Hq Hone Hgt.
    destruct (Hrows _ Hr) as (s & Hs & Hsq & Hss & Hsr).
    destruct (Hrows _ Hr') as (s' & Hs' & Hsq' & Hss' & Hsr').
    rewrite Hss, Hss' in Hgt.
    destruct (group_rank_lt frame s' s Hs' ltac:(congruence))
      as (k' & k & _ & Hk & ?).
    { apply ahead_iff. by left. }
    rewrite Hsr, Hk in Hone. injection Hone as ->. lia. }
  split.
  - intros r Hr. destruct (Hrows _ Hr) as (s & _ & _ & -> & ->).
    unfold group_rank.
    destruct (sr_score s); simpl; try done; split; lia || done.
  - intros r r' Hr Hr' Hq Hone. split; [by apply Htop|].
    intros Hnum. specialize (Htop r r' Hr Hr' Hq Hone). unfold float_le.
    destruct (float_compare (Run.score r') (Run.score r)) as [[]|] eqn:Hc;
      auto; [done|].
    apply float_compare_None in Hc as [Hc|Hc]; [congruence|].
    destruct (Hrows _ Hr) as (s & _ & _ & Hss & Hsr).
    rewrite Hss in Hc. rewrite Hsr, (group_rank_nan _ _ Hc) in Hone. done.
Qed.

(** The first query has two documents of the highest score, the second one
    score that is not-a-number. *)
Lemma create_run_from_scores_top_rank_witness :
  ∃ run,
    create_run_from_scores ["q1"; "q2"] [["a"; "b"; "c"]; ["d"; "e"]]
                           [Finite 1; Finite 2; Finite 2; NaN; PosInf] = Ok run
    ∧ Run.rank <$> run = [Some 1; Some 2; Some 3; Some 1; None]
    ∧ ∀ r, r ∈ run →
           match Run.rank r with
           | Some k => 1 ≤ k ∧ is_nan (Run.score r) = false
           | None => Run.score r = NaN
           end.
Proof.
  eexists. split; [vm_compute; reflexivity|]. split; [reflexivity|].
  eapply (create_run_from_scores_top_rank
            ["q1"; "q2"] [["a"; "b"; "c"]; ["d"; "e"]]
            [Finite 1; Finite 2; Finite 2; NaN; PosInf]).
  vm_compute. reflexivity.
Defined.

(** ** The forward pass, continued *)

Lemma py_index_0 {A} (x : A) (l : list A) : py_index (x :: l) 0 = Ok x.
Proof.
  unfold py_index. rewrite decide_True; [done|]. cbn [length]. lia.
Qed.

Lemma py_index_1 {A} (x y : A) (l : list A) : py_index (x :: y :: l) 1 = Ok y.
Proof.
  unfold py_index. rewrite decide_True; [done|]. cbn [length]. lia.
Qed.

(** X18.  [MVRModel.forward] indexes whatever [score] left in [scores].
    Without a query encoding or without a document encoding nothing is
    scored and indexing [None] raises [TypeError]: the forward pass cannot
    be used to encode one side only.  With both encodings it succeeds
    exactly when the document-score tensor has at least two entries along
    its first axis, and then returns the first as [scores] and the second
    as [viewer_token_scores]; otherwise it raises [IndexError]. *)
Theorem forward_outcomes (self : MVRModel.t)
    (query_encoding doc_encoding : BatchEncoding)
    (other : option BatchEncoding) (num_docs : num_docs_arg) :
  MVRModel_forward self None other num_docs = Raise TypeError
  ∧ MVRModel_forward self other None num_docs = Raise TypeError
  ∧ MVRModel_forward self (Some query_encoding) (Some doc_encoding) num_docs
    = let q := encode_query (MVRModel.super self) query_encoding in
      let d := encode_doc (MVRModel.super self) doc_encoding in
      match (scoring_function (MVRModel.super self) q d num_docs).1 with
      | Stack (first :: second :: _) =>
          Ok (mkMVROutput (VTensor first) (Some q) (Some d) (VTensor second))
      | _ => Raise IndexError
      end.
Proof.
  split; [|split].
  - unfold MVRModel_forward. by destruct other.
  - unfold MVRModel_forward. by destruct other.
  - unfold MVRModel_forward, MVRModel_score. cbn [fmap option_fmap option_map].
    destruct (scoring_function _ _ _ _) as [scores tokens]. cbn [fst].
    destruct scores as [x|[|first [|second rows]]]; try done.
    unfold subscript. by rewrite py_index_0, py_index_1.
Qed.

(** ** Setting up the data module *)

(** X19.  [MVRDataModule.setup] rejects inconsistent settings with
    [ValueError] before it loads anything: the stage ["fit"] without a
    training dataset or with a run file but no run configuration, and, once
    the training part has passed, inference datasets (even an empty list)
    without a run configuration or with the "single_relevant" strategy.  In
    the two inference cases the list of inference datasets is left empty. *)
Theorem setup_rejects (env : Loaders) (self : DataModuleState.t)
    (stage : string) :
  (stage = "fit" → DataModuleState.train_dataset self = None →
   setup env self stage = (self, Some ValueError))
  ∧ (∀ path, stage = "fit" →
       DataModuleState.train_dataset self = Some path →
       path_suffix env path = ".run" →
       DataModuleState.train_run_config self = None →
       setup env self stage = (self, Some ValueError))
  ∧ (∀ paths, stage ≠ "fit" →
       DataModuleState.inference_datasets self = Some paths →
       (DataModuleState.inference_run_config self = None
        ∨ ∃ config, DataModuleState.inference_run_config self = Some config
                    ∧ RunDatasetConfig.sampling_strategy config
                      = single_relevant) →
       setup env self stage
       = (set_inference_datasets self [], Some ValueError)).
Proof.
  unfold setup. split; [|split].
  - intros -> Htrain. rewrite decide_True by done.
    unfold setup_fit. by rewrite Htrain.
  - intros path -> Htrain Hsuffix Hconfig. rewrite decide_True by done.
    unfold setup_fit. rewrite Htrain, decide_True by done. by rewrite Hconfig.
  - intros paths Hstage Hpaths Hconfig. rewrite decide_False by done.
    cbn [DataModuleState.inference_datasets set_inference_datasets
         DataModuleState.inference_run_config].
    rewrite Hpaths. destruct Hconfig as [->|(config & -> & Hs)]; [done|].
    by rewrite decide_True.
Qed.

Lemma load_inference_spec env config paths acc datasets :
  load_inference env config paths acc = (datasets, None) →
  ∃ new, datasets = acc ++ new
         ∧ Forall2 (λ path d,
                      ∃ loaded, load_run_file env path = Ok loaded
                                ∧ d = RunDataset_init loaded.1 loaded.2 config)
                   paths new.
Proof.
  revert acc. induction paths as [|path paths IH]; intros acc;
    cbn [load_inference].
  - intros [= <-]. exists []. by rewrite app_nil_r.
  - unfold new_RunDataset.
    destruct (load_run_file env path) as [loaded|e] eqn:Hload; [|done].
    cbn [mbind result_bind mret result_ret]. intros Hrest.
    destruct (IH _ Hrest) as (new & -> & Hnew).
    exists (RunDataset_init loaded.1 loaded.2 config :: new).
    split; [by rewrite <- (assoc_L (++))|]. constructor; [|done].
    by exists loaded.
Qed.

(** X20.  When [setup] returns without an exception, the inference
    datasets it has assigned are one graded-run dataset per configured
    path, in order, each built from the run file of its path with the
    inference configuration, and that configuration does not use the
    "single_relevant" strategy; without configured paths the list is
    empty.  For the stage ["fit"] the training dataset is a graded-run
    dataset built with the training configuration when the path has the
    suffix [.run], and a triples dataset otherwise. *)
Theorem setup_postcondition (env : Loaders) (self self' : DataModuleState.t)
    (stage : string) :
  setup env self stage = (self', None) →
  (∃ datasets,
     DataModuleState.inference_datasets_attr self' = Some datasets
     ∧ match DataModuleState.inference_datasets self with
       | None => datasets = []
       | Some paths =>
           ∃ config,
             DataModuleState.inference_run_config self = Some config
             ∧ RunDatasetConfig.sampling_strategy config = top
             ∧ Forall2 (λ path d,
                          ∃ loaded,
                            load_run_file env path = Ok loaded
                            ∧ d = RunDataset_init loaded.1 loaded.2 config)
                       paths datasets
       end)
  ∧ (stage = "fit" →
     ∃ path,
       DataModuleState.train_dataset self = Some path
       ∧ match DataModuleState.train_dataset_attr self' with
         | Some (TrainRun d) =>
             path_suffix env path = ".run"
             ∧ ∃ config loaded,
                 DataModuleState.train_run_config self = Some config
                 ∧ load_run_file env path = Ok loaded
                 ∧ d = RunDataset_init loaded.1 loaded.2 config
         | Some (TrainTriples d) =>
             path_suffix env path ≠ ".run"
             ∧ ∃ dataset, load_dataset env path = Ok dataset
                          ∧ d = TriplesDataset_init dataset
         | None => False
         end).
Proof.
  unfold setup. intros Hsetup.
  destruct (if decide (stage = "fit") then setup_fit env self
            else (self, None)) as [mid raised] eqn:Hfit.
  destruct raised as [e|]; [done|].
  assert (DataModuleState.inference_datasets mid
          = DataModuleState.inference_datasets self
          ∧ DataModuleState.inference_run_config mid
            = DataModuleState.inference_run_config self
          ∧ (stage = "fit" →
             ∃ path,
               DataModuleState.train_dataset self = Some path
               ∧ match DataModuleState.train_dataset_attr mid with
                 | Some (TrainRun d) =>
                     path_suffix env path = ".run"
                     ∧ ∃ config loaded,
                         DataModuleState.train_run_config self = Some config
                         ∧ load_run_file env path = Ok loaded
                         ∧ d = RunDataset_init loaded.1 loaded.2 config
                 | Some (TrainTriples d) =>
                     path_suffix env path ≠ ".run"
                     ∧ ∃ dataset, load_dataset env path = Ok dataset
                                  ∧ d = TriplesDataset_init dataset
                 | None => False
                 end)) as (Hpaths & Hconfig & Htrain).
  { destruct (decide (stage = "fit")) as [Hstage|Hstage].
    - unfold setup_fit in Hfit.
      destruct (DataModuleState.train_dataset self) as [path|]; [|done].
      destruct (decide (path_suffix env path = ".run")) as [Hs|Hs].
      + destruct (DataModuleState.train_run_config self) as [config|];
          [|done].
        unfold new_RunDataset in Hfit.
        destruct (load_run_file env path) as [loaded|e] eqn:Hload; [|done].
        cbn [mbind result_bind mret result_ret] in Hfit.
        injection Hfit as <-. repeat split; try done.
        intros _. exists path. split; [done|]. simpl. split; [done|].
        by exists config, loaded.
      + unfold new_TriplesDataset in Hfit.
        destruct (load_dataset env path) as [dataset|e] eqn:Hload; [|done].
        cbn [mbind result_bind mret result_ret] in Hfit.
        injection Hfit as <-. repeat split; try done.
        intros _. exists path. split; [done|]. simpl. split; [done|].
        by exists dataset.
    - injection Hfit as <-. by repeat split. }
  cbn [DataModuleState.inference_datasets set_inference_datasets
       DataModuleState.inference_run_config] in Hsetup.
  rewrite Hpaths, Hconfig in Hsetup.
  destruct (DataModuleState.inference_datasets self) as [paths|].
  - destruct (DataModuleState.inference_run_config self) as [config|];
      [|done].
    destruct (decide (RunDatasetConfig.sampling_strategy config
                      = single_relevant)) as [Hs|Hs]; [done|].
    destruct (load_inference env config paths []) as [datasets raised]
      eqn:Hload.
    injection Hsetup as <- ->. split.
    + exists datasets. split; [done|]. exists config. split; [done|].
      split; [by destruct (RunDatasetConfig.sampling_strategy config)|].
      apply load_inference_spec in Hload as (new & -> & Hnew). done.
    + intros Hstage. exact (Htrain Hstage).
  - injection Hsetup as <-. split; [by exists []|].
    intros Hstage. exact (Htrain Hstage).
Qed.

Lemma setup_postcondition_witness :
  ∃ self',
    setup Fixtures.loaders
      (Fixtures.module_state (Some "fixture/train")
         (Some ["runs/fixture.run"; "runs/fixture.run"]) None
         (Some (RunDatasetConfig.mk relevance_field 2 2 top)))
      "fit" = (self', None)
    ∧ (RunDataset_len
         <$> default [] (DataModuleState.inference_datasets_attr self'))
      = [2%nat; 2%nat]
    ∧ ∃ datasets,
        DataModuleState.inference_datasets_attr self' = Some datasets
        ∧ ∃ config,
            Some (RunDatasetConfig.mk relevance_field 2 2 top) = Some config
            ∧ RunDatasetConfig.sampling_strategy config = top
            ∧ Forall2 (λ path d,
                         ∃ loaded,
                           load_run_file Fixtures.loaders path = Ok loaded
                           ∧ d = RunDataset_init loaded.1 loaded.2 config)
                      ["runs/fixture.run"; "runs/fixture.run"] datasets.
Proof.
  eexists. split; [vm_compute; reflexivity|]. split; [vm_compute; reflexivity|].
  eapply (setup_postcondition Fixtures.loaders
            (Fixtures.module_state (Some "fixture/train")
               (Some ["runs/fixture.run"; "runs/fixture.run"]) None
               (Some (RunDatasetConfig.mk relevance_field 2 2 top)))
            _ "fit").
  vm_compute. reflexivity.
Defined.

(** ** Registering the doc-pair dataset *)

(** X21.  [register_kd_docpairs] never replaces a registered dataset: when
    the id is taken the registry stays as it is.  Otherwise it needs the
    [msmarco-passage/train] dataset and raises [KeyError] without it.  When
    it succeeds the id is registered, every other entry is unchanged, and
    registering again changes nothing. *)
Theorem register_kd_docpairs_once {D} (assemble : D → D)
    (registry : gmap string D) :
  (is_Some (registry !! kd_docpairs_id) →
   register_kd_docpairs assemble registry = Ok registry)
  ∧ (registry !! kd_docpairs_id = None → registry !! msmarco_train_id = None →
     register_kd_docpairs assemble registry = Raise KeyError)
  ∧ (∀ registry',
       register_kd_docpairs assemble registry = Ok registry' →
       is_Some (registry' !! kd_docpairs_id)
       ∧ (∀ k, k ≠ kd_docpairs_id → registry' !! k = registry !! k)
       ∧ register_kd_docpairs assemble registry' = Ok registry').
Proof.
  unfold register_kd_docpairs. split; [|split].
  - intros [d ->]. done.
  - intros -> Hbase. by rewrite (py_getitem_None _ _ Hbase).
  - intros registry' Hreg.
    destruct (registry !! kd_docpairs_id) as [d|] eqn:Hkd.
    + injection Hreg as <-. rewrite Hkd. by repeat split.
    + destruct (py_getitem registry msmarco_train_id) as [base|e]; [|done].
      cbn [mbind result_bind mret result_ret] in Hreg. injection Hreg as <-.
      rewrite lookup_insert_eq. split; [done|]. split; [|done].
      intros k Hk. by rewrite lookup_insert_ne.
Qed.

(** ** Sampling and scoring composed *)

(** X22.  With the "single_relevant" strategy, when the query has at most
    [sample_size - 1] ranked rows with relevance missing or 0, a produced
    sample consists of one relevant row followed by all of those rows, each
    once, in some order: the number of non-relevant documents is clamped to
    what is there, and the sample is shorter than [sample_size] when the
    pool is smaller than [sample_size - 1]. *)
Theorem single_relevant_exhausts_pool (dataset : IRDataset)
    (run_file : list RunRow) (config : RunDatasetConfig.t) (idx : Z)
    (g g' : rng) (query_id : string) (item : Sample.t) :
  let self := RunDataset_init dataset run_file config in
  let pool := filter non_relevant_bool (group_rows self query_id) in
  RunDatasetConfig.sampling_strategy config = single_relevant →
  py_index (RunDataset.query_ids self) idx = Ok query_id →
  Z.of_nat (length pool) ≤ RunDatasetConfig.sample_size config - 1 →
  RunDataset_getitem self idx g = Ok (item, g') →
  ∃ rel_row others,
    Sample.doc_ids item = Row.doc_id <$> rel_row :: others
    ∧ relevant rel_row
    ∧ others ≡ₚ pool
    ∧ Z.of_nat (length (Sample.doc_ids item)) = 1 + Z.of_nat (length pool).
Proof.
  intros self pool Hstrategy Hidx Hsmall Hitem. subst self pool.
  rewrite (getitem_single_relevant dataset run_file config idx g query_id
             Hstrategy Hidx) in Hitem.
  destruct (py_getitem _ query_id) as [query|e]; [|done].
  destruct (sample 1 _ g) as [[rel g1]|e] eqn:Hrel; [|done].
  destruct (sample _ _ g1) as [[others g2]|e] eqn:Hothers; [|done].
  destruct (mapM_result _ _) as [docs|e]; [|done].
  injection Hitem as <- <-. cbn [Sample.doc_ids].
  apply sample_Ok in Hrel as (Hsub & Hlen & _).
  apply sample_Ok in Hothers as (Hsub' & Hlen' & _).
  destruct rel as [|rel_row [|? ?]]; simpl in Hlen; try lia.
  assert (rel_row ∈ filter relevant
            (group_rows (RunDataset_init dataset run_file config) query_id))
    as Hin by (eapply elem_of_submseteq; [left|exact Hsub]).
  apply list_elem_of_filter in Hin as [Hrelevant _].
  exists rel_row, others. split; [done|]. split; [done|]. split.
  - apply submseteq_length_Permutation; [done|]. lia.
  - rewrite length_fmap. cbn [app length]. lia.
Qed.

Lemma single_relevant_exhausts_pool_witness :
  ∃ item g',
    RunDataset_getitem (Fixtures.run_dataset single_relevant 9 (-1)) 0
                       Fixtures.counting = Ok (item, g')
    ∧ ∃ rel_row others,
        Sample.doc_ids item = Row.doc_id <$> rel_row :: others
        ∧ relevant rel_row
        ∧ others
          ≡ₚ filter non_relevant_bool
               (group_rows (Fixtures.run_dataset single_relevant 9 (-1)) "q1")
        ∧ Z.of_nat (length (Sample.doc_ids item))
          = 1 + Z.of_nat
                  (length
                     (filter non_relevant_bool
                        (group_rows
                           (Fixtures.run_dataset single_relevant 9 (-1))
                           "q1"))).
Proof.
  eexists _, _. split; [vm_compute; reflexivity|].
  eapply (single_relevant_exhausts_pool Fixtures.ir_dataset Fixtures.run_file
            (RunDatasetConfig.mk relevance_field (-1) 9 single_relevant) 0
            Fixtures.counting _ "q1").
  - reflexivity.
  - reflexivity.
  - vm_compute. discriminate.
  - vm_compute. reflexivity.
Defined.

Lemma create_run_from_scores_score_mismatch query_ids doc_ids scores :
  length doc_ids = length query_ids →
  length scores ≠ length (mjoin doc_ids) →
  create_run_from_scores query_ids doc_ids scores = Raise ValueError.
Proof.
  intros Hlen Hscores. unfold create_run_from_scores, np_repeat.
  rewrite length_fmap, decide_True by done.
  cbn [mbind result_bind]. unfold make_frame.
  rewrite decide_False; [done|]. intros [_ Hs]. congruence.
Qed.

(** X23.  The query ids and document tuples of a collated batch always fit
    together as arguments of [create_run_from_scores]: for a batch of any
    samples the run is created exactly when there is one score per document
    of the batch, with one row per score, and [ValueError] is raised
    otherwise. *)
Theorem create_run_from_batch (self : MVRDataModule.t)
    (samples : list Sample.t) (scores : list pyfloat) :
  let batch := collate_fn self samples in
  let total := length (mjoin (Sample.doc_ids <$> samples)) in
  (length scores = total →
   ∃ run,
     create_run_from_scores (Batch.query_ids batch) (Batch.doc_ids batch)
                            scores = Ok run
     ∧ length run = length scores)
  ∧ (length scores ≠ total →
     create_run_from_scores (Batch.query_ids batch) (Batch.doc_ids batch)
                            scores = Raise ValueError).
Proof.
  intros batch total. subst batch total.
  assert (Batch.query_ids (collate_fn self samples)
          = Sample.query_id <$> samples) as Hq.
  { unfold collate_fn. by rewrite collate_loop. }
  rewrite Hq, collate_doc_ids.
  assert (length (Sample.doc_ids <$> samples)
          = length (Sample.query_id <$> samples)) as Hlen
    by (by rewrite !length_fmap).
  split.
  - intros Hscores. rewrite create_run_from_scores_frame by done.
    eexists. split; [done|].
    rewrite length_stable_sort, length_fmap. unfold flat_rows.
    rewrite length_imap, !length_zip_with, length_query_column by done. lia.
  - intros Hscores. by apply create_run_from_scores_score_mismatch.
Qed.
